(** * MoviePlayer: a model of [src/components/MoviePlayer.tsx]

    The component is a React function component.  Its hooks are modelled
    as one record of state cells ([ReactState]), its refs and the pieces
    of the browser it talks to (the native video element, the timer table,
    the object-URL store, the document's fullscreen flag) as a [World].
    Every handler of the source is a computation in a small reader/state
    monad: it reads the state cells of the render it was created in (the
    closure), and writes through the [set...] functions, the refs and the
    native element.

    JavaScript numbers are modelled as rationals ([Q]); no operation of
    the claims below depends on rounding. *)

From Stdlib Require Import QArith Qminmax Qround Lqa ZArith String Ascii List.
From Stdlib Require DecimalPos DecimalNat DecimalZ.
From Stdlib Require Import DecimalString.
From stdpp Require Import base option list strings gmap.
Import ListNotations.

(** ** Strings of the source *)

Module Js.

Local Open Scope string_scope.

(** [s.startsWith(p)] *)
Definition startsWith (s p : string) : bool := String.prefix p s.

(** [s.endsWith(p)]: [p] is no longer than [s], and the last
    [p.length] characters of [s] are [p]. *)
Definition endsWith (s p : string) : bool :=
  (String.length p <=? String.length s)%nat &&
  String.eqb (substring (String.length s - String.length p) (String.length p) s) p.

(** [s || d] on strings: the empty string is the only falsy one. *)
Definition or_default (s d : string) : string :=
  if String.eqb s EmptyString then d else s.

(** [n.toString()] for the integers the source prints. *)
Definition nat_toString (n : nat) : string :=
  NilZero.string_of_uint (Nat.to_uint n).

Definition Z_toString (z : Z) : string :=
  NilZero.string_of_int (Z.to_int z).

Definition not_slash_dot (c : ascii) : bool :=
  negb (Ascii.eqb c "/" || Ascii.eqb c ".").

Fixpoint all_chars (p : ascii -> bool) (s : string) : bool :=
  match s with
  | EmptyString => true
  | String c s' => p c && all_chars p s'
  end.

(** [s.replace(/\.[^/.]+$/, empty)]: the leftmost dot that is followed, up
    to the end of the string, by one or more characters other than [/]
    and [.], is removed together with what follows it. *)
Fixpoint strip_extension (s : string) : string :=
  match s with
  | EmptyString => EmptyString
  | String c s' =>
      if Ascii.eqb c "." && negb (String.eqb s' EmptyString) && all_chars not_slash_dot s'
      then EmptyString
      else String c (strip_extension s')
  end.

End Js.

(** ** Data model *)

(** An object URL ([blob:...]) is an opaque name handed out by
    [URL.createObjectURL]; it is modelled by its serial number. *)
Definition ObjectURL : Type := nat.

(** A [File] of a file input or of a drop payload. *)
Record File : Type := mkFile {
  file_name : string;
  file_type : string
}.

Record AudioTrack : Type := mkAudioTrack {
  at_id : string;
  at_label : string;
  at_language : string
}.

Record SubtitleTrack : Type := mkSubtitleTrack {
  st_id : string;
  st_label : string;
  st_language : string;
  st_src : ObjectURL
}.

(** An entry of the native element's [audioTracks] list. *)
Record NativeAudioTrack : Type := mkNativeAudioTrack {
  nat_label : string;
  nat_language : string
}.

(** [video.error]: a [MediaError] object with its numeric [code]. *)
Record MediaError : Type := mkMediaError { me_code : Z }.

(** The [useState] cells of the component, in the order of the source. *)
Record ReactState : Type := mkReactState {
  videoFile : option ObjectURL;
  fileName : string;
  fileFormat : string;
  videoError : option string;
  isVideoLoaded : bool;
  isPlaying : bool;
  currentTime : Q;
  duration : Q;
  volume : Q;
  isMuted : bool;
  isFullscreen : bool;
  showControls : bool;
  isDragging : bool;
  audioTracks : list AudioTrack;
  selectedAudioTrack : string;
  showSettingsMenu : bool;
  subtitleTracks : list SubtitleTrack;
  selectedSubtitleTrack : string;
  showShortcuts : bool;
  isBuffering : bool;
  playbackRate : Q
}.

Definition with_videoFile (x : option ObjectURL) (s : ReactState) : ReactState :=
  mkReactState x (fileName s) (fileFormat s) (videoError s) (isVideoLoaded s)
    (isPlaying s) (currentTime s) (duration s) (volume s) (isMuted s) (isFullscreen s)
    (showControls s) (isDragging s) (audioTracks s) (selectedAudioTrack s)
    (showSettingsMenu s) (subtitleTracks s) (selectedSubtitleTrack s)
    (showShortcuts s) (isBuffering s) (playbackRate s).
Definition with_fileName (x : string) (s : ReactState) : ReactState :=
  mkReactState (videoFile s) x (fileFormat s) (videoError s) (isVideoLoaded s)
    (isPlaying s) (currentTime s) (duration s) (volume s) (isMuted s) (isFullscreen s)
    (showControls s) (isDragging s) (audioTracks s) (selectedAudioTrack s)
    (showSettingsMenu s) (subtitleTracks s) (selectedSubtitleTrack s)
    (showShortcuts s) (isBuffering s) (playbackRate s).
Definition with_fileFormat (x : string) (s : ReactState) : ReactState :=
  mkReactState (videoFile s) (fileName s) x (videoError s) (isVideoLoaded s)
    (isPlaying s) (currentTime s) (duration s) (volume s) (isMuted s) (isFullscreen s)
    (showControls s) (isDragging s) (audioTracks s) (selectedAudioTrack s)
    (showSettingsMenu s) (subtitleTracks s) (selectedSubtitleTrack s)
    (showShortcuts s) (isBuffering s) (playbackRate s).
Definition with_videoError (x : option string) (s : ReactState) : ReactState :=
  mkReactState (videoFile s) (fileName s) (fileFormat s) x (isVideoLoaded s)
    (isPlaying s) (currentTime s) (duration s) (volume s) (isMuted s) (isFullscreen s)
    (showControls s) (isDragging s) (audioTracks s) (selectedAudioTrack s)
    (showSettingsMenu s) (subtitleTracks s) (selectedSubtitleTrack s)
    (showShortcuts s) (isBuffering s) (playbackRate s).
Definition with_isVideoLoaded (x : bool) (s : ReactState) : ReactState :=
  mkReactState (videoFile s) (fileName s) (fileFormat s) (videoError s) x
    (isPlaying s) (currentTime s) (duration s) (volume s) (isMuted s) (isFullscreen s)
    (showControls s) (isDragging s) (audioTracks s) (selectedAudioTrack s)
    (showSettingsMenu s) (subtitleTracks s) (selectedSubtitleTrack s)
    (showShortcuts s) (isBuffering s) (playbackRate s).
Definition with_isPlaying (x : bool) (s : ReactState) : ReactState :=
  mkReactState (videoFile s) (fileName s) (fileFormat s) (videoError s)
    (isVideoLoaded s) x (currentTime s) (duration s) (volume s) (isMuted s)
    (isFullscreen s) (showControls s) (isDragging s) (audioTracks s)
    (selectedAudioTrack s) (showSettingsMenu s) (subtitleTracks s)
    (selectedSubtitleTrack s) (showShortcuts s) (isBuffering s) (playbackRate s).
Definition with_currentTime (x : Q) (s : ReactState) : ReactState :=
  mkReactState (videoFile s) (fileName s) (fileFormat s) (videoError s)
    (isVideoLoaded s) (isPlaying s) x (duration s) (volume s) (isMuted s)
    (isFullscreen s) (showControls s) (isDragging s) (audioTracks s)
    (selectedAudioTrack s) (showSettingsMenu s) (subtitleTracks s)
    (selectedSubtitleTrack s) (showShortcuts s) (isBuffering s) (playbackRate s).
Definition with_duration (x : Q) (s : ReactState) : ReactState :=
  mkReactState (videoFile s) (fileName s) (fileFormat s) (videoError s)
    (isVideoLoaded s) (isPlaying s) (currentTime s) x (volume s) (isMuted s)
    (isFullscreen s) (showControls s) (isDragging s) (audioTracks s)
    (selectedAudioTrack s) (showSettingsMenu s) (subtitleTracks s)
    (selectedSubtitleTrack s) (showShortcuts s) (isBuffering s) (playbackRate s).
Definition with_volume (x : Q) (s : ReactState) : ReactState :=
  mkReactState (videoFile s) (fileName s) (fileFormat s) (videoError s)
    (isVideoLoaded s) (isPlaying s) (currentTime s) (duration s) x (isMuted s)
    (isFullscreen s) (showControls s) (isDragging s) (audioTracks s)
    (selectedAudioTrack s) (showSettingsMenu s) (subtitleTracks s)
    (selectedSubtitleTrack s) (showShortcuts s) (isBuffering s) (playbackRate s).
Definition with_isMuted (x : bool) (s : ReactState) : ReactState :=
  mkReactState (videoFile s) (fileName s) (fileFormat s) (videoError s)
    (isVideoLoaded s) (isPlaying s) (currentTime s) (duration s) (volume s) x
    (isFullscreen s) (showControls s) (isDragging s) (audioTracks s)
    (selectedAudioTrack s) (showSettingsMenu s) (subtitleTracks s)
    (selectedSubtitleTrack s) (showShortcuts s) (isBuffering s) (playbackRate s).
Definition with_isFullscreen (x : bool) (s : ReactState) : ReactState :=
  mkReactState (videoFile s) (fileName s) (fileFormat s) (videoError s)
    (isVideoLoaded s) (isPlaying s) (currentTime s) (duration s) (volume s)
    (isMuted s) x (showControls s) (isDragging s) (audioTracks s)
    (selectedAudioTrack s) (showSettingsMenu s) (subtitleTracks s)
    (selectedSubtitleTrack s) (showShortcuts s) (isBuffering s) (playbackRate s).
Definition with_showControls (x : bool) (s : ReactState) : ReactState :=
  mkReactState (videoFile s) (fileName s) (fileFormat s) (videoError s)
    (isVideoLoaded s) (isPlaying s) (currentTime s) (duration s) (volume s)
    (isMuted s) (isFullscreen s) x (isDragging s) (audioTracks s)
    (selectedAudioTrack s) (showSettingsMenu s) (subtitleTracks s)
    (selectedSubtitleTrack s) (showShortcuts s) (isBuffering s) (playbackRate s).
Definition with_isDragging (x : bool) (s : ReactState) : ReactState :=
  mkReactState (videoFile s) (fileName s) (fileFormat s) (videoError s)
    (isVideoLoaded s) (isPlaying s) (currentTime s) (duration s) (volume s)
    (isMuted s) (isFullscreen s) (showControls s) x (audioTracks s)
    (selectedAudioTrack s) (showSettingsMenu s) (subtitleTracks s)
    (selectedSubtitleTrack s) (showShortcuts s) (isBuffering s) (playbackRate s).
Definition with_audioTracks (x : list AudioTrack) (s : ReactState) : ReactState :=
  mkReactState (videoFile s) (fileName s) (fileFormat s) (videoError s)
    (isVideoLoaded s) (isPlaying s) (currentTime s) (duration s) (volume s)
    (isMuted s) (isFullscreen s) (showControls s) (isDragging s) x
    (selectedAudioTrack s) (showSettingsMenu s) (subtitleTracks s)
    (selectedSubtitleTrack s) (showShortcuts s) (isBuffering s) (playbackRate s).
Definition with_selectedAudioTrack (x : string) (s : ReactState) : ReactState :=
  mkReactState (videoFile s) (fileName s) (fileFormat s) (videoError s)
    (isVideoLoaded s) (isPlaying s) (currentTime s) (duration s) (volume s)
    (isMuted s) (isFullscreen s) (showControls s) (isDragging s) (audioTracks s) x
    (showSettingsMenu s) (subtitleTracks s) (selectedSubtitleTrack s)
    (showShortcuts s) (isBuffering s) (playbackRate s).
Definition with_showSettingsMenu (x : bool) (s : ReactState) : ReactState :=
  mkReactState (videoFile s) (fileName s) (fileFormat s) (videoError s)
    (isVideoLoaded s) (isPlaying s) (currentTime s) (duration s) (volume s)
    (isMuted s) (isFullscreen s) (showControls s) (isDragging s) (audioTracks s)
    (selectedAudioTrack s) x (subtitleTracks s) (selectedSubtitleTrack s)
    (showShortcuts s) (isBuffering s) (playbackRate s).
Definition with_subtitleTracks (x : list SubtitleTrack) (s : ReactState) : ReactState :=
  mkReactState (videoFile s) (fileName s) (fileFormat s) (videoError s)
    (isVideoLoaded s) (isPlaying s) (currentTime s) (duration s) (volume s)
    (isMuted s) (isFullscreen s) (showControls s) (isDragging s) (audioTracks s)
    (selectedAudioTrack s) (showSettingsMenu s) x (selectedSubtitleTrack s)
    (showShortcuts s) (isBuffering s) (playbackRate s).
Definition with_selectedSubtitleTrack (x : string) (s : ReactState) : ReactState :=
  mkReactState (videoFile s) (fileName s) (fileFormat s) (videoError s)
    (isVideoLoaded s) (isPlaying s) (currentTime s) (duration s) (volume s)
    (isMuted s) (isFullscreen s) (showControls s) (isDragging s) (audioTracks s)
    (selectedAudioTrack s) (showSettingsMenu s) (subtitleTracks s) x (showShortcuts s)
    (isBuffering s) (playbackRate s).
Definition with_showShortcuts (x : bool) (s : ReactState) : ReactState :=
  mkReactState (videoFile s) (fileName s) (fileFormat s) (videoError s)
    (isVideoLoaded s) (isPlaying s) (currentTime s) (duration s) (volume s)
    (isMuted s) (isFullscreen s) (showControls s) (isDragging s) (audioTracks s)
    (selectedAudioTrack s) (showSettingsMenu s) (subtitleTracks s)
    (selectedSubtitleTrack s) x (isBuffering s) (playbackRate s).
Definition with_isBuffering (x : bool) (s : ReactState) : ReactState :=
  mkReactState (videoFile s) (fileName s) (fileFormat s) (videoError s)
    (isVideoLoaded s) (isPlaying s) (currentTime s) (duration s) (volume s)
    (isMuted s) (isFullscreen s) (showControls s) (isDragging s) (audioTracks s)
    (selectedAudioTrack s) (showSettingsMenu s) (subtitleTracks s)
    (selectedSubtitleTrack s) (showShortcuts s) x (playbackRate s).
Definition with_playbackRate (x : Q) (s : ReactState) : ReactState :=
  mkReactState (videoFile s) (fileName s) (fileFormat s) (videoError s)
    (isVideoLoaded s) (isPlaying s) (currentTime s) (duration s) (volume s)
    (isMuted s) (isFullscreen s) (showControls s) (isDragging s) (audioTracks s)
    (selectedAudioTrack s) (showSettingsMenu s) (subtitleTracks s)
    (selectedSubtitleTrack s) (showShortcuts s) (isBuffering s) x.

(** The state of the first render: the initial values of the [useState] calls. *)
Definition initialState : ReactState :=
  mkReactState None EmptyString EmptyString None false false 0 0 1 false false true
    false [] EmptyString false [] "off" false false 1.

(** ** The browser side *)

(** The native [<video>] element, by the attributes the component reads
    or assigns.  An assignment stores the value and [load()] resets the
    element at once; what the browser does next reaches the component as
    a later event. *)
Record HTMLVideoElement : Type := mkVideo {
  el_src : ObjectURL;
  el_currentTime : Q;
  el_duration : Q;
  el_volume : Q;
  el_muted : bool;
  el_playbackRate : Q;
  el_error : option MediaError;
  el_audioTracks : option (list NativeAudioTrack)
}.

Definition set_el_src (x : ObjectURL) (s : HTMLVideoElement) : HTMLVideoElement :=
  mkVideo x (el_currentTime s) (el_duration s) (el_volume s) (el_muted s)
    (el_playbackRate s) (el_error s) (el_audioTracks s).
Definition set_el_currentTime (x : Q) (s : HTMLVideoElement) : HTMLVideoElement :=
  mkVideo (el_src s) x (el_duration s) (el_volume s) (el_muted s) (el_playbackRate s)
    (el_error s) (el_audioTracks s).
Definition set_el_duration (x : Q) (s : HTMLVideoElement) : HTMLVideoElement :=
  mkVideo (el_src s) (el_currentTime s) x (el_volume s) (el_muted s)
    (el_playbackRate s) (el_error s) (el_audioTracks s).
Definition set_el_volume (x : Q) (s : HTMLVideoElement) : HTMLVideoElement :=
  mkVideo (el_src s) (el_currentTime s) (el_duration s) x (el_muted s)
    (el_playbackRate s) (el_error s) (el_audioTracks s).
Definition set_el_muted (x : bool) (s : HTMLVideoElement) : HTMLVideoElement :=
  mkVideo (el_src s) (el_currentTime s) (el_duration s) (el_volume s) x
    (el_playbackRate s) (el_error s) (el_audioTracks s).
Definition set_el_playbackRate (x : Q) (s : HTMLVideoElement) : HTMLVideoElement :=
  mkVideo (el_src s) (el_currentTime s) (el_duration s) (el_volume s) (el_muted s) x
    (el_error s) (el_audioTracks s).
Definition set_el_error (x : option MediaError) (s : HTMLVideoElement) : HTMLVideoElement :=
  mkVideo (el_src s) (el_currentTime s) (el_duration s) (el_volume s) (el_muted s)
    (el_playbackRate s) x (el_audioTracks s).
Definition set_el_audioTracks (x : option (list NativeAudioTrack)) (s : HTMLVideoElement) : HTMLVideoElement :=
  mkVideo (el_src s) (el_currentTime s) (el_duration s) (el_volume s) (el_muted s)
    (el_playbackRate s) (el_error s) x.

(** A [<div>] the component holds a ref to; only its presence matters. *)
Inductive HTMLDivElement : Type := DivElement.

(** [getBoundingClientRect()] of the progress bar. *)
Record DOMRect : Type := mkDOMRect { rect_left : Q; rect_width : Q }.

(** The only callback the component ever hands to [setTimeout]:
    [() => setShowControls(false)]. *)
Inductive TimerCallback : Type := HideControls.

Record Timer : Type := mkTimer { timer_delay : Z; timer_callback : TimerCallback }.

(** Method calls whose result the component does not read. *)
Inductive PlatformCall : Type :=
| CallPreventDefault
| CallPlay
| CallPause
| CallLoad
| CallRequestFullscreen
| CallExitFullscreen.

(** Everything a handler can read or write. *)
Record World : Type := mkWorld {
  react : ReactState;
  videoRef : option HTMLVideoElement;
  progressRef : option HTMLDivElement;
  containerRef : option HTMLDivElement;
  controlsTimeoutRef : option positive;
  timers : gmap positive Timer;
  nextTimer : positive;
  blobStore : gmap ObjectURL File;
  nextBlob : ObjectURL;
  fullscreenElement : bool;
  calls : list PlatformCall
}.

Definition upd_react (x : ReactState) (s : World) : World :=
  mkWorld x (videoRef s) (progressRef s) (containerRef s) (controlsTimeoutRef s)
    (timers s) (nextTimer s) (blobStore s) (nextBlob s) (fullscreenElement s)
    (calls s).
Definition upd_videoRef (x : option HTMLVideoElement) (s : World) : World :=
  mkWorld (react s) x (progressRef s) (containerRef s) (controlsTimeoutRef s)
    (timers s) (nextTimer s) (blobStore s) (nextBlob s) (fullscreenElement s)
    (calls s).
Definition upd_progressRef (x : option HTMLDivElement) (s : World) : World :=
  mkWorld (react s) (videoRef s) x (containerRef s) (controlsTimeoutRef s) (timers s)
    (nextTimer s) (blobStore s) (nextBlob s) (fullscreenElement s) (calls s).
Definition upd_containerRef (x : option HTMLDivElement) (s : World) : World :=
  mkWorld (react s) (videoRef s) (progressRef s) x (controlsTimeoutRef s) (timers s)
    (nextTimer s) (blobStore s) (nextBlob s) (fullscreenElement s) (calls s).
Definition upd_controlsTimeoutRef (x : option positive) (s : World) : World :=
  mkWorld (react s) (videoRef s) (progressRef s) (containerRef s) x (timers s)
    (nextTimer s) (blobStore s) (nextBlob s) (fullscreenElement s) (calls s).
Definition upd_timers (x : gmap positive Timer) (s : World) : World :=
  mkWorld (react s) (videoRef s) (progressRef s) (containerRef s)
    (controlsTimeoutRef s) x (nextTimer s) (blobStore s) (nextBlob s)
    (fullscreenElement s) (calls s).
Definition upd_nextTimer (x : positive) (s : World) : World :=
  mkWorld (react s) (videoRef s) (progressRef s) (containerRef s)
    (controlsTimeoutRef s) (timers s) x (blobStore s) (nextBlob s)
    (fullscreenElement s) (calls s).
Definition upd_blobStore (x : gmap ObjectURL File) (s : World) : World :=
  mkWorld (react s) (videoRef s) (progressRef s) (containerRef s)
    (controlsTimeoutRef s) (timers s) (nextTimer s) x (nextBlob s)
    (fullscreenElement s) (calls s).
Definition upd_nextBlob (x : ObjectURL) (s : World) : World :=
  mkWorld (react s) (videoRef s) (progressRef s) (containerRef s)
    (controlsTimeoutRef s) (timers s) (nextTimer s) (blobStore s) x
    (fullscreenElement s) (calls s).
Definition upd_fullscreenElement (x : bool) (s : World) : World :=
  mkWorld (react s) (videoRef s) (progressRef s) (containerRef s)
    (controlsTimeoutRef s) (timers s) (nextTimer s) (blobStore s) (nextBlob s) x
    (calls s).
Definition upd_calls (x : list PlatformCall) (s : World) : World :=
  mkWorld (react s) (videoRef s) (progressRef s) (containerRef s)
    (controlsTimeoutRef s) (timers s) (nextTimer s) (blobStore s) (nextBlob s)
    (fullscreenElement s) x.

(** The world before the component is mounted: nothing rendered yet, no
    object URL, no timer.  Timer ids start at 1, as in browsers, so a
    stored id is always truthy. *)
Definition initialWorld : World :=
  mkWorld initialState None None None None ∅ 1%positive ∅ 0%nat false [].

(** ** Handlers

    A handler is created by a render and closes over the state cells of
    that render (first argument); it acts on the world (second
    argument).  A [set...] call replaces the cell for the next render and
    is not visible to the closure that made it. *)

Definition Handler (A : Type) : Type := ReactState -> World -> A * World.

#[export] Instance handler_ret : MRet Handler := fun A (x : A) _ w => (x, w).

#[export] Instance handler_bind : MBind Handler :=
  fun A B (f : A -> Handler B) (c : Handler A) r w =>
    let (x, w') := c r w in f x r w'.

(** The world a handler leaves, when run from the render [r]. *)
Definition exec {A : Type} (h : Handler A) (r : ReactState) (w : World) : World :=
  snd (h r w).

(** A handler of the current render. *)
Definition fire {A : Type} (h : Handler A) (w : World) : World :=
  exec h (react w) w.

(** Reading a cell of the closure. *)
Definition closure {A : Type} (cell : ReactState -> A) : Handler A :=
  fun r w => (cell r, w).

Definition setState (f : ReactState -> ReactState) : Handler unit :=
  fun _ w => (tt, upd_react (f (react w)) w).

Definition modifyWorld (f : World -> World) : Handler unit :=
  fun _ w => (tt, f w).

Definition readWorld {A : Type} (f : World -> A) : Handler A :=
  fun _ w => (f w, w).

Definition skip : Handler unit := mret tt.

Definition setVideoFile x := setState (with_videoFile x).
Definition setFileName x := setState (with_fileName x).
Definition setFileFormat x := setState (with_fileFormat x).
Definition setVideoError x := setState (with_videoError x).
Definition setIsVideoLoaded x := setState (with_isVideoLoaded x).
Definition setIsPlaying x := setState (with_isPlaying x).
Definition setCurrentTime x := setState (with_currentTime x).
Definition setDuration x := setState (with_duration x).
Definition setVolume x := setState (with_volume x).
Definition setIsMuted x := setState (with_isMuted x).
Definition setIsFullscreen x := setState (with_isFullscreen x).
Definition setShowControls x := setState (with_showControls x).
Definition setAudioTracks x := setState (with_audioTracks x).
Definition setSelectedAudioTrack x := setState (with_selectedAudioTrack x).
Definition setShowSettingsMenu x := setState (with_showSettingsMenu x).
Definition setSelectedSubtitleTrack x := setState (with_selectedSubtitleTrack x).
Definition setShowShortcuts x := setState (with_showShortcuts x).
Definition setIsBuffering x := setState (with_isBuffering x).
Definition setPlaybackRate x := setState (with_playbackRate x).

(** [setSubtitleTracks(prev => f(prev))]: the updater form, applied to the
    pending value of the cell. *)
Definition setSubtitleTracks (f : list SubtitleTrack -> list SubtitleTrack) :=
  setState (fun s => with_subtitleTracks (f (subtitleTracks s)) s).

(** *** Browser primitives *)

(** [URL.createObjectURL(file)]: registers the file under a new URL. *)
Definition createObjectURL (file : File) : Handler ObjectURL :=
  fun _ w =>
    let url := nextBlob w in
    (url, upd_nextBlob (S url) (upd_blobStore (<[url := file]> (blobStore w)) w)).

(** [URL.revokeObjectURL(url)].  The component never calls it; it is here
    to say what releasing a URL would be. *)
Definition revokeObjectURL (url : ObjectURL) : Handler unit :=
  modifyWorld (fun w => upd_blobStore (delete url (blobStore w)) w).

Definition call (c : PlatformCall) : Handler unit :=
  modifyWorld (fun w => upd_calls (calls w ++ [c]) w).

(** [if (videoRef.current) { body(videoRef.current) }] *)
Definition whenVideo (body : HTMLVideoElement -> Handler unit) : Handler unit :=
  v ← readWorld videoRef;
  match v with
  | Some video => body video
  | None => skip
  end.

(** An assignment to an attribute of [videoRef.current]. *)
Definition assignVideo (f : HTMLVideoElement -> HTMLVideoElement) : Handler unit :=
  modifyWorld (fun w => upd_videoRef (f <$> videoRef w) w).

(** [clearTimeout(id)] *)
Definition clearTimeout (id : positive) : Handler unit :=
  modifyWorld (fun w => upd_timers (delete id (timers w)) w).

(** [setTimeout(cb, delay)]: a new pending timer; its id is returned. *)
Definition setTimeout (cb : TimerCallback) (delay : Z) : Handler positive :=
  fun _ w =>
    let id := nextTimer w in
    (id, upd_nextTimer (Pos.succ id) (upd_timers (<[id := mkTimer delay cb]> (timers w)) w)).

(** What [video.load()] does to the element at once, before any event:
    the error is dropped, the position is back at 0, the rate is back at
    the default rate (1, which the component never changes), and the
    metadata (duration, track list) is forgotten.  The source, the
    volume and the muted flag stay. *)
Definition resetByLoad (video : HTMLVideoElement) : HTMLVideoElement :=
  {| el_src := el_src video;
     el_currentTime := 0;
     el_duration := 0;
     el_volume := el_volume video;
     el_muted := el_muted video;
     el_playbackRate := 1;
     el_error := None;
     el_audioTracks := None |}.

(** [videoRef.current.load()] *)
Definition load : Handler unit :=
  call CallLoad;;
  assignVideo resetByLoad.

(** *** File intake *)

Section FileIntake.

Local Open Scope string_scope.

(** The value form [setSubtitleTracks(list)]. *)
Definition resetSubtitleTracks (l : list SubtitleTrack) : Handler unit :=
  setSubtitleTracks (fun _ => l).

(** The track both subtitle paths build; [now] is what [Date.now()]
    returns during the call. *)
Definition newSubtitleTrack (file : File) (now : Z) (url : ObjectURL) : SubtitleTrack :=
  {| st_id := "subtitle-" +:+ Js.Z_toString now;
     st_label := Js.strip_extension (file_name file);
     st_language := "Unknown";
     st_src := url |}.

(** [handleFileSelect]; [files] is [event.target.files]. *)
Definition handleFileSelect (files : option (list File)) : Handler unit :=
  match files ≫= head with
  | Some file =>
      setVideoError None;;
      setIsVideoLoaded false;;
      setIsPlaying false;;
      setCurrentTime 0;;
      setDuration 0;;
      url ← createObjectURL file;
      setVideoFile (Some url);;
      setFileName (file_name file);;
      setFileFormat (Js.or_default (file_type file) "Unknown");;
      resetSubtitleTracks [];;
      setSelectedSubtitleTrack "off"
  | None => skip
  end.

(** [handleSubtitleSelect] *)
Definition handleSubtitleSelect (files : option (list File)) (now : Z) : Handler unit :=
  match files ≫= head with
  | Some file =>
      url ← createObjectURL file;
      let newTrack := newSubtitleTrack file now url in
      setSubtitleTracks (fun prev => (prev ++ [newTrack])%list);;
      setSelectedSubtitleTrack (st_id newTrack)
  | None => skip
  end.

Definition isVideoType (file : File) : bool :=
  Js.startsWith (file_type file) "video/".

Definition isSubtitleName (file : File) : bool :=
  Js.endsWith (file_name file) ".srt" ||
  Js.endsWith (file_name file) ".vtt" ||
  Js.endsWith (file_name file) ".ass" ||
  Js.endsWith (file_name file) ".ssa".

(** [handleDrop]; [files] is [Array.from(event.dataTransfer.files)]. *)
Definition handleDrop (files : list File) (now : Z) : Handler unit :=
  call CallPreventDefault;;
  let videoFile := List.find isVideoType files in
  let subtitleFile := List.find isSubtitleName files in
  match videoFile with
  | Some videoFile =>
      url ← createObjectURL videoFile;
      setVideoFile (Some url);;
      setFileName (file_name videoFile);;
      setFileFormat (Js.or_default (file_type videoFile) "Unknown");;
      setVideoError None;;
      setIsVideoLoaded false
  | None => skip
  end;;
  match subtitleFile with
  | Some subtitleFile =>
      url ← createObjectURL subtitleFile;
      let newTrack := newSubtitleTrack subtitleFile now url in
      setSubtitleTracks (fun prev => (prev ++ [newTrack])%list);;
      setSelectedSubtitleTrack (st_id newTrack)
  | None => skip
  end.

Definition handleDragOver : Handler unit := call CallPreventDefault.

(** The two buttons of the error overlay. *)
Definition clickTryAgain : Handler unit :=
  setVideoError None;;
  whenVideo (fun _ => load).

Definition clickChooseDifferentFile : Handler unit :=
  setVideoFile None;;
  setVideoError None;;
  setFileName EmptyString.

End FileIntake.

(** *** Playback control *)

Section Playback.

Local Open Scope Q_scope.

Definition togglePlayPause : Handler unit :=
  whenVideo (fun _ =>
    playing ← closure isPlaying;
    if (playing : bool) then call CallPause else call CallPlay).

Definition skipBackward : Handler unit :=
  whenVideo (fun video =>
    assignVideo (set_el_currentTime (Qmax 0 (el_currentTime video - 10)))).

Definition skipForward : Handler unit :=
  duration ← closure duration;
  whenVideo (fun video =>
    assignVideo (set_el_currentTime (Qmin duration (el_currentTime video + 10)))).

Definition toggleMute : Handler unit :=
  isMuted ← closure isMuted;
  whenVideo (fun _ =>
    setIsMuted (negb isMuted);;
    assignVideo (set_el_muted (negb isMuted))).

(** [handleVolumeChange]; [newVolume] is [parseFloat(event.target.value)]. *)
Definition handleVolumeChange (newVolume : Q) : Handler unit :=
  setVolume newVolume;;
  setIsMuted (Qeq_bool newVolume 0);;
  whenVideo (fun _ =>
    assignVideo (set_el_volume newVolume);;
    assignVideo (set_el_muted (Qeq_bool newVolume 0))).

Definition handlePlaybackRateChange (rate : Q) : Handler unit :=
  setPlaybackRate rate;;
  whenVideo (fun _ => assignVideo (set_el_playbackRate rate));;
  setShowSettingsMenu false.

Definition toggleFullscreen : Handler unit :=
  container ← readWorld containerRef;
  match container with
  | Some _ =>
      fs ← readWorld fullscreenElement;
      if negb fs then call CallRequestFullscreen else call CallExitFullscreen
  | None => skip
  end.

(** [handleProgressClick]; [clientX] is [event.clientX] and [rect] what
    [progressRef.current.getBoundingClientRect()] returns. *)
Definition handleProgressClick (clientX : Q) (rect : DOMRect) : Handler unit :=
  bar ← readWorld progressRef;
  video ← readWorld videoRef;
  match bar, video with
  | Some _, Some _ =>
      let clickX := clientX - rect_left rect in
      let width := rect_width rect in
      let percentage := clickX / width in
      duration ← closure duration;
      let newTime := percentage * duration in
      assignVideo (set_el_currentTime newTime)
  | _, _ => skip
  end.

End Playback.

(** *** Controls visibility *)

Definition showControlsWithTimeout : Handler unit :=
  setShowControls true;;
  pending ← readWorld controlsTimeoutRef;
  match pending with
  | Some id => clearTimeout id
  | None => skip
  end;;
  playing ← closure isPlaying;
  if (playing : bool) then
    id ← setTimeout HideControls 3000;
    modifyWorld (upd_controlsTimeoutRef (Some id))
  else skip.

Definition handleMouseMove : Handler unit := showControlsWithTimeout.

Definition handleMouseLeave : Handler unit :=
  playing ← closure isPlaying;
  if (playing : bool) then setShowControls false else skip.

(** What a timer does when it fires. *)
Definition runCallback (cb : TimerCallback) : Handler unit :=
  match cb with
  | HideControls => setShowControls false
  end.

(** The class expression of the controls overlay,
    [showControls || !isPlaying]: whether the controls are drawn visible. *)
Definition controlsVisible (s : ReactState) : bool :=
  showControls s || negb (isPlaying s).

(** *** Keyboard shortcuts *)

(** A [keydown] event: [event.code], and whether
    [event.target instanceof HTMLInputElement]. *)
Record KeyboardEvent : Type := mkKeyboardEvent {
  key_code : string;
  target_isInput : bool
}.

Section Keyboard.

Local Open Scope string_scope.

(** The [switch (event.code)] of [handleKeyPress]: the first [case] whose
    label is strictly equal to the code runs; without one, nothing runs. *)
Fixpoint switch (code : string) (cases : list (string * Handler unit)) : Handler unit :=
  match cases with
  | [] => skip
  | (label, body) :: rest => if String.eqb code label then body else switch code rest
  end.

Definition handleKeyPress (event : KeyboardEvent) : Handler unit :=
  if target_isInput event then skip
  else
    switch (key_code event)
      [ ("Space", call CallPreventDefault;; togglePlayPause;; showControlsWithTimeout);
        ("KeyM", call CallPreventDefault;; toggleMute;; showControlsWithTimeout);
        ("ArrowLeft", call CallPreventDefault;; skipBackward;; showControlsWithTimeout);
        ("ArrowRight", call CallPreventDefault;; skipForward;; showControlsWithTimeout);
        ("KeyF", call CallPreventDefault;; toggleFullscreen);
        ("KeyK", call CallPreventDefault;; togglePlayPause;; showControlsWithTimeout);
        ("KeyJ", call CallPreventDefault;; skipBackward;; showControlsWithTimeout);
        ("KeyL", call CallPreventDefault;; skipForward;; showControlsWithTimeout) ].

End Keyboard.





(** *** Events of the native element *)

Section VideoEvents.

Local Open Scope string_scope.

Definition audioTrackOf (i : nat) (track : NativeAudioTrack) : AudioTrack :=
  {| at_id := Js.nat_toString i;
     at_label := Js.or_default (nat_label track) ("Track " +:+ Js.nat_toString (i + 1));
     at_language := Js.or_default (nat_language track) "Unknown" |}.

Definition handleLoadedMetadata : Handler unit :=
  whenVideo (fun video =>
    setDuration (el_duration video);;
    setIsVideoLoaded true;;
    setVideoError None;;
    let tracks :=
      match el_audioTracks video with
      | Some audioTracks => imap audioTrackOf audioTracks
      | None => []
      end in
    setAudioTracks tracks;;
    if (0 <? length tracks)%nat then setSelectedAudioTrack "0" else skip).

Definition handleTimeUpdate : Handler unit :=
  dragging ← closure isDragging;
  whenVideo (fun video =>
    if negb dragging then setCurrentTime (el_currentTime video) else skip).

Definition handlePlay : Handler unit :=
  setIsPlaying true;;
  setIsBuffering false;;
  setVideoError None.

Definition handlePause : Handler unit := setIsPlaying false.
Definition handleWaiting : Handler unit := setIsBuffering true.
Definition handleCanPlay : Handler unit := setIsBuffering false.

(** The [switch (video.error.code)] of [handleError]. *)
Definition errorMessageOf (code : Z) : string :=
  match code with
  | 1%Z => "Video loading was aborted"
  | 2%Z => "Network error occurred while loading video"
  | 3%Z => "Video format not supported or corrupted"
  | 4%Z => "Video format not supported by your browser"
  | _ => "Unknown video error occurred"
  end.

Definition handleError : Handler unit :=
  setIsBuffering false;;
  setIsPlaying false;;
  video ← readWorld videoRef;
  match video ≫= el_error with
  | Some error => setVideoError (Some (errorMessageOf (me_code error)))
  | None => skip
  end.

Definition handleLoadStart : Handler unit :=
  setIsBuffering true;;
  setVideoError None.

Definition handleFullscreenChange : Handler unit :=
  fs ← readWorld fullscreenElement;
  setIsFullscreen fs.

End VideoEvents.

(** ** Rendering

    After a handler has run the component renders again.  While
    [videoFile] is null the upload screen is returned and the player's
    elements do not exist; otherwise the player is returned, its video
    element is created if it was not there (with the attributes of a new
    element) and its [src] is the current [videoFile]. *)

(** A video element as the browser creates it: at position 0, at full
    volume, not muted, at rate 1, without error and without metadata (its
    duration is read by the component only once metadata has loaded). *)
Definition newVideoElement (url : ObjectURL) : HTMLVideoElement :=
  {| el_src := url;
     el_currentTime := 0;
     el_duration := 0;
     el_volume := 1;
     el_muted := false;
     el_playbackRate := 1;
     el_error := None;
     el_audioTracks := None |}.

Definition render (w : World) : World :=
  match videoFile (react w) with
  | None =>
      upd_videoRef None (upd_progressRef None (upd_containerRef None w))
  | Some url =>
      let video :=
        match videoRef w with
        | Some video => set_el_src url video
        | None => newVideoElement url
        end in
      upd_videoRef (Some video)
        (upd_progressRef (Some DivElement) (upd_containerRef (Some DivElement) w))
  end.

(** A handler of the current render runs, then the component renders. *)
Definition dispatch (h : Handler unit) (w : World) : World := render (fire h w).

(** ** Events

    What can happen to the mounted component: the user acts on an element
    that is on screen, the native element reports, a timer fires.  An
    event of the native element carries what the browser has put into
    the element before it calls the handler. *)

Inductive Event : Type :=
| PickVideo (files : option (list File))
| PickSubtitle (files : option (list File)) (now : Z)
| DropFiles (files : list File) (now : Z)
| DragOver
| KeyDown (event : KeyboardEvent)
| MouseMove
| MouseLeave
| TimerFires (id : positive)
| ClickPlayPause
| ClickSkipBackward
| ClickSkipForward
| ClickMute
| ChangeVolume (newVolume : Q)
| ClickRate (rate : Q)
| ClickFullscreen
| ClickProgress (clientX : Q) (rect : DOMRect)
| ClickSettings
| ClickSubtitle (id : string)
| ClickTryAgain
| ClickChooseDifferentFile
| NativeLoadStart
| NativeLoadedMetadata (duration : Q) (tracks : option (list NativeAudioTrack))
| NativeTimeUpdate (time : Q)
| NativePlay
| NativePause
| NativeWaiting
| NativeCanPlay
| NativeError (error : option MediaError)
| FullscreenChange (fs : bool).

(** Which screen the last render returned. *)
Definition uploadScreen (w : World) : bool :=
  match videoFile (react w) with None => true | Some _ => false end.

Definition playerScreen (w : World) : bool := negb (uploadScreen w).

(** [videoError && ...]: the error overlay is drawn for a non-empty message. *)
Definition errorOverlay (w : World) : bool :=
  playerScreen w &&
  match videoError (react w) with
  | Some msg => negb (String.eqb msg EmptyString)
  | None => false
  end.

Definition guard (b : bool) (w : World) : option World :=
  if b then Some w else None.

Definition browserSets (f : HTMLVideoElement -> HTMLVideoElement) (w : World) : World :=
  upd_videoRef (f <$> videoRef w) w.

(** One event; [None] when the element it comes from is not on screen. *)
Definition step (e : Event) (w : World) : option World :=
  match e with
  | PickVideo files =>
      guard (uploadScreen w) (dispatch (handleFileSelect files) w)
  | PickSubtitle files now =>
      guard (uploadScreen w || showSettingsMenu (react w))
        (dispatch (handleSubtitleSelect files now) w)
  | DropFiles files now =>
      guard (uploadScreen w) (dispatch (handleDrop files now) w)
  | DragOver => guard (uploadScreen w) (dispatch handleDragOver w)
  | KeyDown event => Some (dispatch (handleKeyPress event) w)
  | MouseMove => guard (playerScreen w) (dispatch handleMouseMove w)
  | MouseLeave => guard (playerScreen w) (dispatch handleMouseLeave w)
  | TimerFires id =>
      timer ← timers w !! id;
      Some (dispatch (runCallback (timer_callback timer))
              (upd_timers (delete id (timers w)) w))
  | ClickPlayPause => guard (playerScreen w) (dispatch togglePlayPause w)
  | ClickSkipBackward => guard (playerScreen w) (dispatch skipBackward w)
  | ClickSkipForward => guard (playerScreen w) (dispatch skipForward w)
  | ClickMute => guard (playerScreen w) (dispatch toggleMute w)
  | ChangeVolume newVolume =>
      guard (playerScreen w) (dispatch (handleVolumeChange newVolume) w)
  | ClickRate rate =>
      guard (playerScreen w && showSettingsMenu (react w))
        (dispatch (handlePlaybackRateChange rate) w)
  | ClickFullscreen => guard (playerScreen w) (dispatch toggleFullscreen w)
  | ClickProgress clientX rect =>
      guard (playerScreen w) (dispatch (handleProgressClick clientX rect) w)
  | ClickSettings =>
      guard (playerScreen w)
        (dispatch (open ← closure showSettingsMenu; setShowSettingsMenu (negb open)) w)
  | ClickSubtitle id =>
      guard (playerScreen w && showSettingsMenu (react w))
        (dispatch (setSelectedSubtitleTrack id) w)
  | ClickTryAgain => guard (errorOverlay w) (dispatch clickTryAgain w)
  | ClickChooseDifferentFile =>
      guard (errorOverlay w) (dispatch clickChooseDifferentFile w)
  | NativeLoadStart => guard (playerScreen w) (dispatch handleLoadStart w)
  | NativeLoadedMetadata duration tracks =>
      guard (playerScreen w)
        (dispatch handleLoadedMetadata
           (browserSets (fun v => set_el_audioTracks tracks (set_el_duration duration v)) w))
  | NativeTimeUpdate time =>
      guard (playerScreen w)
        (dispatch handleTimeUpdate (browserSets (set_el_currentTime time) w))
  | NativePlay => guard (playerScreen w) (dispatch handlePlay w)
  | NativePause => guard (playerScreen w) (dispatch handlePause w)
  | NativeWaiting => guard (playerScreen w) (dispatch handleWaiting w)
  | NativeCanPlay => guard (playerScreen w) (dispatch handleCanPlay w)
  | NativeError error =>
      guard (playerScreen w) (dispatch handleError (browserSets (set_el_error error) w))
  | FullscreenChange fs =>
      Some (dispatch handleFullscreenChange (upd_fullscreenElement fs w))
  end.

(** A sequence of events, from the first to the last. *)
Fixpoint run (events : list Event) (w : World) : option World :=
  match events with
  | [] => Some w
  | e :: rest => w' ← step e w; run rest w'
  end.

(** The component once mounted. *)
Definition mounted : World := render initialWorld.

Inductive reachable : World -> Prop :=
| reachable_mounted : reachable mounted
| reachable_step e w w' : reachable w -> step e w = Some w' -> reachable w'.

(** ** Invariants of the reachable worlds *)

(** The only pending timer, if any, is the one [controlsTimeoutRef]
    names, and it is a 3000 ms timer that hides the controls. *)
Definition timerInv (w : World) : Prop :=
  forall id t, timers w !! id = Some t ->
    controlsTimeoutRef w = Some id /\ t = mkTimer 3000 HideControls.

(** No URL at or beyond the next serial number is registered. *)
Definition blobInv (w : World) : Prop :=
  forall url, (nextBlob w <= url)%nat -> blobStore w !! url = None.

(** Every URL registered in [w] is still registered, for the same file,
    in [w']. *)
Definition keepsBlobs (w w' : World) : Prop :=
  forall url file, blobStore w !! url = Some file -> blobStore w' !! url = Some file.

(** ** Sample files, worlds and runs *)

Definition movie : File := mkFile "movie.mp4" "video/mp4".

Definition subtitles : File := mkFile "movie.en.srt" EmptyString.

(** A player that has just been given a file. *)
Definition playerWorld : World := dispatch (handleFileSelect (Some [movie])) mounted.

(** The same player after the element has reported that it cannot play
    the file. *)
Definition failedPlayer : World :=
  dispatch handleError (browserSets (set_el_error (Some (mkMediaError 4))) playerWorld).

(** The events that leave the stored [isMuted] and the element's [muted]
    apart: mute a player, discard its file after an error, and pick a
    file again; the new player gets a new element, which is not muted. *)
Definition remountTrace : list Event :=
  [ PickVideo (Some [movie]);
    KeyDown (mkKeyboardEvent "KeyM" false);
    NativeError (Some (mkMediaError 4));
    ClickChooseDifferentFile;
    PickVideo (Some [movie]) ].

(** A file is played up to second 50 of 120, with a subtitle track
    added from the settings menu, and then fails. *)
Definition failedTrace : list Event :=
  [ PickVideo (Some [movie]);
    NativeLoadedMetadata 120 None;
    NativeTimeUpdate 50;
    ClickSettings;
    PickSubtitle (Some [subtitles]) 1000;
    NativeError (Some (mkMediaError 3)) ].

(** The failed file is discarded with the button of the error overlay. *)
Definition discardTrace : list Event := failedTrace ++ [ClickChooseDifferentFile].

(** The state the specification asks for after a new video file has
    been selected. *)
Definition selectionReset (s : ReactState) : Prop :=
  subtitleTracks s = [] /\
  selectedSubtitleTrack s = "off" /\
  (currentTime s == 0)%Q /\
  (duration s == 0)%Q /\
  videoError s = None.

(** A URL is revoked once the store has no entry for it. *)
Definition revoked (url : ObjectURL) (w : World) : Prop := blobStore w !! url = None.

(** ** What the render shows

    The expressions of the JSX that decide what is drawn, as functions of
    the state cells of the render. *)

Section Display.

Local Open Scope Q_scope.

(** Truthiness of a [string | null] cell. *)
Definition truthy (s : option string) : bool :=
  match s with
  | Some msg => negb (String.eqb msg EmptyString)
  | None => false
  end.

(** [{videoError && ...}]: the error box. *)
Definition errorBox (s : ReactState) : bool := truthy (videoError s).

(** [{isBuffering && !videoError && ...}]: the spinner. *)
Definition bufferingIndicator (s : ReactState) : bool :=
  isBuffering s && negb (truthy (videoError s)).

(** [{!isPlaying && !isBuffering && !videoError && isVideoLoaded && ...}]:
    the large play button over the picture. *)
Definition centralPlayButton (s : ReactState) : bool :=
  negb (isPlaying s) && negb (isBuffering s) && negb (truthy (videoError s))
  && isVideoLoaded s.

(** [isMuted || volume === 0]: the crossed-out speaker is drawn. *)
Definition muteIcon (s : ReactState) : bool :=
  isMuted s || Qeq_bool (volume s) 0.

(** [value={isMuted ? 0 : volume}] of the volume slider. *)
Definition sliderValue (s : ReactState) : Q :=
  if isMuted s then 0 else volume s.

(** [const progress = duration ? (currentTime / duration) * 100 : 0]:
    the width of the red bar, in percent. *)
Definition progress (s : ReactState) : Q :=
  if Qeq_bool (duration s) 0 then 0 else currentTime s / duration s * 100.

(** [Math.floor(x)] *)
Definition Math_floor (x : Q) : Z := Qfloor x.

(** The integer part of [x], rounded towards zero. *)
Definition truncate (x : Q) : Z :=
  if Qle_bool 0 x then Qfloor x else Qceiling x.

(** [x % m]: what is left of [x] after taking out [m] a whole number
    of times, counted towards zero; it has the sign of [x]. *)
Definition remainder (x m : Q) : Q := x - m * inject_Z (truncate (x / m)).

Fixpoint repeat_char (n : nat) (c : ascii) : string :=
  match n with
  | O => EmptyString
  | S n' => String c (repeat_char n' c)
  end.

(** [s.padStart(n, c)] for a one-character filler. *)
Definition padStart (n : nat) (c : ascii) (s : string) : string :=
  repeat_char (n - String.length s) c +:+ s.

(** [formatTime]; the three counts are whole numbers, printed as such. *)
Definition formatTime (time : Q) : string :=
  let hours := Math_floor (time / 3600) in
  let minutes := Math_floor (remainder time 3600 / 60) in
  let seconds := Math_floor (remainder time 60) in
  if (0 <? hours)%Z then
    Js.Z_toString hours +:+ ":" +:+ padStart 2 "0" (Js.Z_toString minutes)
      +:+ ":" +:+ padStart 2 "0" (Js.Z_toString seconds)
  else
    Js.Z_toString minutes +:+ ":" +:+ padStart 2 "0" (Js.Z_toString seconds).

End Display.

(** ** Teardown *)

(** The cleanup of the last effect, run when the component goes away:
    [if (controlsTimeoutRef.current) clearTimeout(controlsTimeoutRef.current)]. *)
Definition cleanupTimeouts : Handler unit :=
  pending ← readWorld controlsTimeoutRef;
  match pending with
  | Some id => clearTimeout id
  | None => skip
  end.

(** ** Buttons that exist

    [step] lets a subtitle button be clicked for any id; the menu draws
    one for "off" and one for each track of the list. *)
Definition drawnSubtitleButton (id : string) (s : ReactState) : Prop :=
  id = "off" \/ In id (map st_id (subtitleTracks s)).

Definition onDrawnButton (e : Event) (w : World) : Prop :=
  match e with
  | ClickSubtitle id => drawnSubtitleButton id (react w)
  | _ => True
  end.

(** The selected subtitle track is "off" or one of the list. *)
Definition selectionListed (s : ReactState) : Prop :=
  drawnSubtitleButton (selectedSubtitleTrack s) s.

(** Reading a printed whole number back. *)
Definition parseWhole (s : string) : option Z :=
  Z.of_int <$> NilZero.int_of_string s.

(** The player with its settings menu opened. *)
Definition settingsOpen : World :=
  dispatch (open ← closure showSettingsMenu; setShowSettingsMenu (negb open)) playerWorld.

(** What holds of the state cells in every
    reachable world (shown below): nothing is being dragged, nothing
    plays while an error message is stored or while the upload screen is
    shown. *)
Definition stateInv (w : World) : Prop :=
  isDragging (react w) = false /\
  (videoError (react w) = None \/ isPlaying (react w) = false) /\
  (videoFile (react w) = None -> isPlaying (react w) = false).

(** The URLs handed out so far are exactly the registered ones, and
    the video source and the sources of the subtitle tracks are among
    them. *)
Definition urlsInv (w : World) : Prop :=
  (forall url, (url < nextBlob w)%nat <-> is_Some (blobStore w !! url)) /\
  (forall url, videoFile (react w) = Some url -> (url < nextBlob w)%nat) /\
  Forall (fun track => (st_src track < nextBlob w)%nat) (subtitleTracks (react w)).

(** What the last render put on screen: on the player screen the video
    element with the current source, the progress bar and the container;
    on the upload screen none of them. *)
Definition refsInv (w : World) : Prop :=
  match videoFile (react w) with
  | Some url =>
      (exists video, videoRef w = Some video /\ el_src video = url) /\
      progressRef w = Some DivElement /\ containerRef w = Some DivElement
  | None => videoRef w = None /\ progressRef w = None /\ containerRef w = None
  end.

(** * Properties *)

(** ** The string functions on examples *)

Example endsWith_srt : Js.endsWith "movie.en.srt" ".srt" = true.
Proof. reflexivity. Qed.

Example endsWith_short : Js.endsWith "srt" ".srt" = false.
Proof. reflexivity. Qed.

Example endsWith_inside : Js.endsWith "a.srt.txt" ".srt" = false.
Proof. reflexivity. Qed.

Example strip_extension_last_dot :
  Js.strip_extension "dir.d/movie.en.srt" = "dir.d/movie.en".
Proof. reflexivity. Qed.

Example strip_extension_no_match :
  Js.strip_extension "a.b/c" = "a.b/c" /\ Js.strip_extension "movie." = "movie.".
Proof. split; reflexivity. Qed.

Example subtitle_id : st_id (newSubtitleTrack subtitles 1700000000000 7%nat)
                      = "subtitle-1700000000000".
Proof. reflexivity. Qed.

(** ** Proof support *)

Create HintDb handler discriminated.

#[local] Hint Unfold fire exec dispatch mbind mret handler_bind handler_ret closure
  setState modifyWorld readWorld skip call whenVideo assignVideo clearTimeout
  setTimeout load createObjectURL setVideoFile setFileName setFileFormat setVideoError
  setIsVideoLoaded setIsPlaying setCurrentTime setDuration setVolume setIsMuted
  setIsFullscreen setShowControls setAudioTracks setSelectedAudioTrack
  setShowSettingsMenu setSelectedSubtitleTrack setShowShortcuts setIsBuffering
  setPlaybackRate setSubtitleTracks resetSubtitleTracks : handler.

(** Runs the monadic plumbing of a goal down to record updates. *)
Ltac run_handler := autounfold with handler in *; cbn in *.

(** The same, after putting the mounted video element in place. *)
Ltac with_video H := run_handler; rewrite ?H; cbn; rewrite ?H; cbn.

#[local] Hint Unfold handleFileSelect handleSubtitleSelect handleDrop handleDragOver
  handleMouseMove handleMouseLeave togglePlayPause skipBackward skipForward toggleMute
  handleVolumeChange handlePlaybackRateChange toggleFullscreen handleProgressClick
  clickTryAgain clickChooseDifferentFile handleLoadStart handleLoadedMetadata
  handleTimeUpdate handlePlay handlePause handleWaiting handleCanPlay handleError
  handleFullscreenChange runCallback browserSets showControlsWithTimeout : handler.

(** Splits on a value the goal tests, innermost test first. *)
Ltac split_test :=
  match goal with
  | |- context [match ?x with _ => _ end] =>
      lazymatch x with
      | context [match _ with _ => _ end] => fail
      | _ => destruct x eqn:?
      end
  end.

(** Unfolds a handler completely and follows each of its branches. *)
Ltac crunch := autounfold with handler; cbn; repeat (split_test; cbn).

(** The cases of [step]: for each event that is enabled, the world it
    leaves is [dispatch h w0] for the handler [h] of the event. *)
Ltac step_cases e Hstep :=
  destruct e; cbn [step] in Hstep; unfold guard in Hstep;
  try (match type of Hstep with
       | context [timers ?w !! ?id] => destruct (timers w !! id) eqn:?; cbn in Hstep
       end);
  repeat case_match; simplify_eq.

(** ** Invariants *)

Lemma render_timers w : timers (render w) = timers w.
Proof. unfold render. repeat case_match; reflexivity. Qed.

Lemma render_controlsTimeoutRef w : controlsTimeoutRef (render w) = controlsTimeoutRef w.
Proof. unfold render. repeat case_match; reflexivity. Qed.

Lemma render_blobStore w : blobStore (render w) = blobStore w.
Proof. unfold render. repeat case_match; reflexivity. Qed.

Lemma render_nextBlob w : nextBlob (render w) = nextBlob w.
Proof. unfold render. repeat case_match; reflexivity. Qed.

Lemma render_react w : react (render w) = react w.
Proof. unfold render. repeat case_match; reflexivity. Qed.

(** After a render the video element exists exactly on the player
    screen, and plays the current [videoFile]. *)
Lemma render_video w :
  match videoFile (react (render w)) with
  | Some url => exists video, videoRef (render w) = Some video /\ el_src video = url
  | None => videoRef (render w) = None
  end.
Proof.
  rewrite render_react. unfold render.
  destruct (videoFile (react w)) as [url|]; [|reflexivity].
  destruct (videoRef w); eexists; split; reflexivity.
Qed.

Lemma exec_seq (c k : Handler unit) r w : exec (c;; k) r w = exec k r (exec c r w).
Proof. unfold exec, mbind, handler_bind. destruct (c r w) as [[] w1]. reflexivity. Qed.

Lemma timerInv_render w : timerInv w -> timerInv (render w).
Proof. unfold timerInv. rewrite render_timers, render_controlsTimeoutRef. auto. Qed.

Lemma timerInv_show r w : timerInv w -> timerInv (exec showControlsWithTimeout r w).
Proof.
  intros Hinv id t. crunch; rewrite ?lookup_insert, ?lookup_delete;
    repeat case_decide; intros Hl; simplify_eq; auto;
    destruct (Hinv _ _ Hl) as [Href ->]; split; congruence.
Qed.

Lemma timerInv_key event w : timerInv w -> timerInv (fire (handleKeyPress event) w).
Proof.
  intros Hinv. unfold fire, handleKeyPress.
  destruct (target_isInput event); [exact Hinv|].
  cbn [switch]. repeat case_match; try exact Hinv.
  all: rewrite !exec_seq; try apply timerInv_show.
  all: intros id t; crunch; apply Hinv.
Qed.

Lemma timerInv_step e w w' : timerInv w -> step e w = Some w' -> timerInv w'.
Proof.
  intros Hinv Hstep. step_cases e Hstep.
  all: unfold dispatch; apply timerInv_render.
  all: try apply timerInv_key; try apply timerInv_show; try assumption.
  all: try (intros i t'; crunch; solve [apply Hinv]).
  intros i t'. crunch. rewrite lookup_delete. case_decide; [done|]. apply Hinv.
Qed.

Lemma timerInv_mounted : timerInv mounted.
Proof. intros id t Hl. vm_compute in Hl. discriminate. Qed.

Lemma reachable_timerInv w : reachable w -> timerInv w.
Proof.
  induction 1 as [|e w w' _ IH Hstep]; [apply timerInv_mounted|].
  exact (timerInv_step e w w' IH Hstep).
Qed.

(** Registering under the next serial number keeps everything else. *)
Lemma register_fresh (store : gmap ObjectURL File) (next : nat) (file : File) :
  (forall url, (next <= url)%nat -> store !! url = None) ->
  (forall url, (S next <= url)%nat -> <[next := file]> store !! url = None) /\
  (forall url f, store !! url = Some f -> <[next := file]> store !! url = Some f).
Proof.
  intros Hfresh. split.
  - intros url Hle. rewrite lookup_insert_ne by lia. apply Hfresh. lia.
  - intros url f Hl. rewrite lookup_insert_ne; [exact Hl|].
    intros <-. rewrite Hfresh in Hl; [discriminate|lia].
Qed.

Lemma blobInv_step e w w' :
  blobInv w -> step e w = Some w' -> blobInv w' /\ keepsBlobs w w'.
Proof.
  intros Hinv Hstep. step_cases e Hstep.
  all: unfold dispatch, blobInv, keepsBlobs; rewrite render_blobStore, render_nextBlob.
  all: try solve [crunch; (split; [exact Hinv|auto])].
  - (* handleFileSelect *)
    crunch; [|split; [exact Hinv|auto]].
    exact (register_fresh _ _ _ Hinv).
  - (* handleSubtitleSelect *)
    crunch; [|split; [exact Hinv|auto]].
    exact (register_fresh _ _ _ Hinv).
  - (* handleDrop *)
    crunch; try solve [split; [exact Hinv|auto]]; try exact (register_fresh _ _ _ Hinv).
    destruct (register_fresh _ _ f Hinv) as [Hnext Hkeep].
    destruct (register_fresh _ _ f0 Hnext) as [Hnext' Hkeep'].
    split; [exact Hnext'|auto].
  - (* handleKeyPress *)
    unfold fire, handleKeyPress.
    destruct (target_isInput event); [split; [exact Hinv|auto]|].
    cbn [switch]. repeat case_match; crunch; (split; [exact Hinv|auto]).
Qed.

Lemma blobInv_mounted : blobInv mounted.
Proof. intros url _. reflexivity. Qed.

Lemma reachable_blobInv w : reachable w -> blobInv w.
Proof.
  induction 1 as [|e w w' _ IH Hstep]; [apply blobInv_mounted|].
  exact (proj1 (blobInv_step e w w' IH Hstep)).
Qed.

(** On the player screen of a reachable world the video element is
    there, so the handlers that test [videoRef.current] do act. *)
Lemma reachable_player_has_video w :
  reachable w -> playerScreen w = true -> is_Some (videoRef w).
Proof.
  intros Hreach Hplayer.
  assert (exists w0, w = render w0) as [w0 ->].
  { destruct Hreach as [|e w w' _ Hstep]; [eexists; reflexivity|].
    step_cases e Hstep; eexists; reflexivity. }
  pose proof (render_video w0) as Hvideo.
  unfold playerScreen, uploadScreen in Hplayer.
  destruct (videoFile (react (render w0))); [|discriminate].
  destruct Hvideo as (video & -> & _). eexists; reflexivity.
Qed.

Lemma run_reachable events : forall w w', reachable w -> run events w = Some w' -> reachable w'.
Proof.
  induction events as [|e rest IH]; cbn; intros w w' Hreach Hrun.
  - congruence.
  - destruct (step e w) as [w1|] eqn:Hstep; [|discriminate].
    exact (IH w1 w' (reachable_step e w w1 Hreach Hstep) Hrun).
Qed.

(** ** Selecting a video file *)

(** What the picker does, from every world: the subtitle list is
    emptied, the selection is "off", the position and the duration are
    0 and the error is null. *)
Lemma handleFileSelect_resets (files : option (list File)) (file : File) (w : World) :
  files ≫= head = Some file ->
  let s' := react (fire (handleFileSelect files) w) in
  subtitleTracks s' = [] /\
  selectedSubtitleTrack s' = "off" /\
  currentTime s' = 0%Q /\
  duration s' = 0%Q /\
  videoError s' = None /\
  selectionReset s'.
Proof.
  intros Hfile. unfold selectionReset, handleFileSelect.
  rewrite Hfile. run_handler. repeat split; reflexivity.
Qed.

(** What a drop with a video file does, from every world: the error is
    null; when the same drop carries a subtitle file, its track is put
    last in the list and becomes the selected one. *)
Lemma handleDrop_video (files : list File) (now : Z) (video : File) (w : World) :
  List.find isVideoType files = Some video ->
  let s' := react (fire (handleDrop files now) w) in
  videoError s' = None /\
  forall subtitle,
    List.find isSubtitleName files = Some subtitle ->
    let track := newSubtitleTrack subtitle now (S (nextBlob w)) in
    last (subtitleTracks s') = Some track /\
    selectedSubtitleTrack s' = st_id track.
Proof.
  intros Hvideo. unfold handleDrop. rewrite Hvideo.
  destruct (List.find isSubtitleName files) as [sub|] eqn:Hsub; run_handler.
  - split; [reflexivity|]. intros subtitle [= <-].
    split; [apply last_snoc|reflexivity].
  - split; [reflexivity|]. discriminate.
Qed.

(** On the first screen already: a video dropped together with a
    subtitle file leaves a list of one track, which is the selected one. *)
Lemma drop_with_subtitle_selects_it :
  exists w : World,
    step (DropFiles [subtitles; movie] 2000) mounted = Some w /\
    videoFile (react w) = Some 0%nat /\
    subtitleTracks (react w) =
      [mkSubtitleTrack "subtitle-2000" "movie.en" "Unknown" 1%nat] /\
    selectedSubtitleTrack (react w) = "subtitle-2000".
Proof. eexists. split; [vm_compute; reflexivity|]. repeat split; reflexivity. Qed.

(** C1 holds of the picker and fails for a drop, by a slip of the drop
    handler.  After [discardTrace] the upload screen is back with the
    old position (50), duration (120) and subtitle track still stored.
    The picker, given a video file there, resets them all, as its
    comments say; the drop handler, given the same file, selects it and
    resets none of them: it leaves out the resets of its sibling. *)
Theorem C1_drop_keeps_stale_state :
  exists w picked dropped : World,
    run discardTrace mounted = Some w /\
    step (PickVideo (Some [movie])) w = Some picked /\
    step (DropFiles [movie] 2000) w = Some dropped /\
    videoFile (react picked) = Some 2%nat /\
    selectionReset (react picked) /\
    videoFile (react dropped) = Some 2%nat /\
    subtitleTracks (react dropped) =
      [mkSubtitleTrack "subtitle-1000" "movie.en" "Unknown" 1%nat] /\
    selectedSubtitleTrack (react dropped) = "subtitle-1000" /\
    currentTime (react dropped) = 50%Q /\
    duration (react dropped) = 120%Q /\
    videoError (react dropped) = None /\
    ~ selectionReset (react dropped).
Proof.
  do 3 eexists. split; [vm_compute; reflexivity|].
  split; [vm_compute; reflexivity|]. split; [vm_compute; reflexivity|].
  split; [reflexivity|].
  split; [repeat split; vm_compute; reflexivity|].
  repeat split; try (vm_compute; reflexivity).
  intros (Htracks & _). vm_compute in Htracks. discriminate.
Qed.

(** ** Object URLs *)

(** What a call of [URL.revokeObjectURL] would do. *)
Lemma revokeObjectURL_revokes url r w : revoked url (exec (revokeObjectURL url) r w).
Proof. unfold revoked, revokeObjectURL. run_handler. apply lookup_delete_eq. Qed.

(** C2, as stated, fails.  The file of [failedTrace] has the URL 0 (its
    subtitle track the URL 1).  Discarding it clears [videoFile] and
    leaves the URL registered; so does the selection of the next file,
    which gets the URL 2. *)
Lemma C2_discard_leaves_url_registered :
  exists w w1 w2 : World,
    run failedTrace mounted = Some w /\
    videoFile (react w) = Some 0%nat /\
    step ClickChooseDifferentFile w = Some w1 /\
    videoFile (react w1) = None /\
    blobStore w1 !! 0%nat = Some movie /\
    ~ revoked 0%nat w1 /\
    step (PickVideo (Some [movie])) w1 = Some w2 /\
    videoFile (react w2) = Some 2%nat /\
    ~ revoked 0%nat w2.
Proof.
  do 3 eexists.
  split; [vm_compute; reflexivity|]. split; [reflexivity|].
  split; [vm_compute; reflexivity|]. split; [reflexivity|].
  split; [reflexivity|]. split; [discriminate|].
  split; [vm_compute; reflexivity|]. split; [reflexivity|]. discriminate.
Qed.

(** C2, amended.  No event revokes an object URL: in a reachable
    world, whatever happens next, every registered URL stays registered
    for its file; this holds for the previous source when a file is
    chosen or dropped and when the source is discarded.  Choosing or
    dropping a video file registers it under the next URL, which
    becomes [videoFile]; discarding sets [videoFile] to null and leaves
    the store as it is. *)
Theorem C2_no_object_url_revoked :
  (forall e w w' url file,
     reachable w -> step e w = Some w' ->
     blobStore w !! url = Some file ->
     blobStore w' !! url = Some file /\ ~ revoked url w') /\
  (forall files file w,
     files ≫= head = Some file ->
     let w' := fire (handleFileSelect files) w in
     videoFile (react w') = Some (nextBlob w) /\
     blobStore w' !! nextBlob w = Some file) /\
  (forall files now video w,
     List.find isVideoType files = Some video ->
     let w' := fire (handleDrop files now) w in
     videoFile (react w') = Some (nextBlob w) /\
     blobStore w' !! nextBlob w = Some video) /\
  (forall w, videoFile (react (fire clickChooseDifferentFile w)) = None /\
             blobStore (fire clickChooseDifferentFile w) = blobStore w).
Proof.
  repeat apply conj.
  - intros e w w' url file Hreach Hstep Hl.
    destruct (blobInv_step e w w' (reachable_blobInv w Hreach) Hstep) as [_ Hkeep].
    pose proof (Hkeep url file Hl) as Hl'. split; [exact Hl'|].
    unfold revoked. rewrite Hl'. discriminate.
  - intros files file w Hfile. unfold handleFileSelect. rewrite Hfile. run_handler.
    split; [reflexivity|]. apply lookup_insert_eq.
  - intros files now video w Hvideo. unfold handleDrop. rewrite Hvideo.
    destruct (List.find isSubtitleName files); run_handler.
    + split; [reflexivity|].
      rewrite lookup_insert_ne by lia. apply lookup_insert_eq.
    + split; [reflexivity|]. apply lookup_insert_eq.
  - intros w. split; reflexivity.
Qed.

Lemma failedPlayer_reachable : reachable failedPlayer.
Proof.
  apply (reachable_step (NativeError (Some (mkMediaError 4))) playerWorld);
    [|vm_compute; reflexivity].
  apply (reachable_step (PickVideo (Some [movie])) mounted); [|vm_compute; reflexivity].
  apply reachable_mounted.
Qed.

Lemma C2_no_object_url_revoked_witness :
  videoFile (react failedPlayer) = Some 0%nat /\
  videoFile (react (dispatch clickChooseDifferentFile failedPlayer)) = None /\
  blobStore (dispatch clickChooseDifferentFile failedPlayer) !! 0%nat = Some movie /\
  ~ revoked 0%nat (dispatch clickChooseDifferentFile failedPlayer).
Proof.
  split; [vm_compute; reflexivity|]. split; [vm_compute; reflexivity|].
  refine (proj1 C2_no_object_url_revoked ClickChooseDifferentFile failedPlayer
            (dispatch clickChooseDifferentFile failedPlayer) 0%nat movie
            failedPlayer_reachable _ _); vm_compute; reflexivity.
Defined.

(** ** Keyboard shortcuts *)

Section KeyboardProperties.

Local Open Scope string_scope.

(** What the toggles ask of the platform: with the player mounted,
    [togglePlayPause] calls [pause()] when playing and [play()]
    otherwise; [toggleFullscreen] requests fullscreen unless some
    element is fullscreen, and then leaves it. *)
Lemma togglePlayPause_calls w video :
  videoRef w = Some video ->
  calls (fire togglePlayPause w) =
  (calls w ++ [if isPlaying (react w) then CallPause else CallPlay])%list.
Proof.
  intros Hv. unfold togglePlayPause. with_video Hv.
  destruct (isPlaying (react w)); reflexivity.
Qed.

Lemma toggleFullscreen_calls w container :
  containerRef w = Some container ->
  calls (fire toggleFullscreen w) =
  (calls w ++ [if fullscreenElement w then CallExitFullscreen
               else CallRequestFullscreen])%list.
Proof.
  intros Hc. unfold toggleFullscreen. run_handler. rewrite Hc. cbn.
  destruct (fullscreenElement w); reflexivity.
Qed.






End KeyboardProperties.

(** ** Controls visibility *)

(** A timer that is pending after [showControlsWithTimeout] either was
    pending before, or was armed by a render in which [isPlaying] holds. *)
Lemma showControlsWithTimeout_arms r w id t :
  timers (exec showControlsWithTimeout r w) !! id = Some t ->
  timers w !! id = Some t \/ (isPlaying r = true /\ t = mkTimer 3000 HideControls).
Proof.
  crunch; rewrite ?lookup_insert, ?lookup_delete;
    repeat case_decide; intros Hl; simplify_eq; auto.
Qed.

(** No event arms a timer unless the component is playing. *)
Lemma step_arms_only_when_playing e w w' id t :
  step e w = Some w' ->
  timers w' !! id = Some t ->
  timers w !! id = Some t \/ (isPlaying (react w) = true /\ t = mkTimer 3000 HideControls).
Proof.
  intros Hstep. step_cases e Hstep.
  all: unfold dispatch; rewrite render_timers.
  all: try solve [crunch; auto].
  - (* handleKeyPress *)
    unfold fire, handleKeyPress.
    destruct (target_isInput event); [auto|].
    cbn [switch]. repeat case_match; auto.
    all: rewrite !exec_seq; try (intros Hl; apply showControlsWithTimeout_arms in Hl;
                                 destruct Hl as [Hl|Hl]; [revert Hl|auto]).
    all: crunch; auto.
  - (* handleMouseMove *)
    apply showControlsWithTimeout_arms.
  - (* a timer fires *)
    crunch. rewrite lookup_delete. case_decide; [discriminate|auto].
Qed.

(** C4. [showControlsWithTimeout] arms a timer only from a render in
    which [isPlaying] is true, and then it is the 3000 ms timer that
    hides the controls; no event of the component arms one otherwise.
    In a reachable world it is the only pending timer, and none is
    pending after the call when not playing.  A timer that fires hides
    the controls.  The pointer leaving the player hides
    the controls exactly when playing, and changes nothing otherwise.
    In every state that is not playing the controls are drawn visible. *)
Theorem C4_controls_visibility :
  (forall r w id t,
     timers (exec showControlsWithTimeout r w) !! id = Some t ->
     timers w !! id = Some t \/
     (isPlaying r = true /\ t = mkTimer 3000 HideControls)) /\
  (forall e w w' id t,
     step e w = Some w' ->
     timers w' !! id = Some t ->
     timers w !! id = Some t \/
     (isPlaying (react w) = true /\ t = mkTimer 3000 HideControls)) /\
  (forall w, reachable w ->
     timers (fire showControlsWithTimeout w) =
     if isPlaying (react w) then {[ nextTimer w := mkTimer 3000 HideControls ]} else ∅) /\
  (forall w id t, reachable w -> timers w !! id = Some t ->
     exists w', step (TimerFires id) w = Some w' /\
                showControls (react w') = false /\ timers w' = ∅) /\
  (forall w, controlsVisible (react (fire handleMouseLeave w)) = false <->
             isPlaying (react w) = true) /\
  (forall w, isPlaying (react w) = false -> fire handleMouseLeave w = w) /\
  (forall s, isPlaying s = false -> controlsVisible s = true).
Proof.
  repeat apply conj.
  - exact showControlsWithTimeout_arms.
  - exact step_arms_only_when_playing.
  - intros w Hreach. pose proof (reachable_timerInv w Hreach) as Hinv.
    crunch; apply map_eq; intros i.
    + rewrite lookup_insert, lookup_singleton. case_decide; [reflexivity|].
      rewrite lookup_delete. case_decide; [reflexivity|].
      destruct (timers w !! i) eqn:Hl; [|reflexivity].
      destruct (Hinv _ _ Hl); congruence.
    + rewrite lookup_empty, lookup_delete. case_decide; [reflexivity|].
      destruct (timers w !! i) eqn:Hl; [|reflexivity].
      destruct (Hinv _ _ Hl); congruence.
    + rewrite lookup_insert, lookup_singleton. case_decide; [reflexivity|].
      destruct (timers w !! i) eqn:Hl; [|reflexivity].
      destruct (Hinv _ _ Hl); congruence.
    + rewrite lookup_empty.
      destruct (timers w !! i) eqn:Hl; [|reflexivity].
      destruct (Hinv _ _ Hl); congruence.
  - intros w id t Hreach Hl. pose proof (reachable_timerInv w Hreach) as Hinv.
    destruct (Hinv _ _ Hl) as [Href ->].
    eexists. cbn [step]. rewrite Hl. cbn. split; [reflexivity|].
    unfold dispatch. rewrite render_react, render_timers. crunch.
    split; [reflexivity|]. apply map_eq; intros i.
    rewrite lookup_empty, lookup_delete. case_decide; [reflexivity|].
    destruct (timers w !! i) eqn:Hl'; [|reflexivity].
    destruct (Hinv _ _ Hl'); congruence.
  - intros w. unfold controlsVisible, handleMouseLeave. run_handler.
    destruct (isPlaying (react w)) eqn:Hp; cbn; rewrite Hp.
    + split; reflexivity.
    + rewrite orb_true_r. split; discriminate.
  - intros w Hp. unfold handleMouseLeave. run_handler. rewrite Hp. reflexivity.
  - intros s Hp. unfold controlsVisible. rewrite Hp. apply orb_true_r.
Qed.

Lemma C4_controls_visibility_witness :
  timers (fire showControlsWithTimeout playerWorld) = ∅ /\
  controlsVisible (with_showControls false (react playerWorld)) = true.
Proof.
  destruct C4_controls_visibility as (_ & _ & Harm & _ & _ & _ & Hpaused).
  split.
  - exact (Harm playerWorld
             (reachable_step (PickVideo (Some [movie])) mounted playerWorld
                reachable_mounted eq_refl)).
  - exact (Hpaused (with_showControls false (react playerWorld)) eq_refl).
Defined.

(** ** Error translation *)

(** C5. For a native error event whose element carries an error object,
    the message follows the code: 1 aborted, 2 network, 3 unsupported or
    corrupted, 4 unsupported by the browser, anything else the generic
    message; and [isPlaying] and [isBuffering] are set to false. *)
Theorem C5_error_messages (w : World) (video : HTMLVideoElement) (error : MediaError) :
  videoRef w = Some video ->
  el_error video = Some error ->
  let s' := react (fire handleError w) in
  (me_code error = 1%Z -> videoError s' = Some "Video loading was aborted") /\
  (me_code error = 2%Z ->
     videoError s' = Some "Network error occurred while loading video") /\
  (me_code error = 3%Z -> videoError s' = Some "Video format not supported or corrupted") /\
  (me_code error = 4%Z ->
     videoError s' = Some "Video format not supported by your browser") /\
  (~ (1 <= me_code error <= 4)%Z -> videoError s' = Some "Unknown video error occurred") /\
  isPlaying s' = false /\
  isBuffering s' = false.
Proof.
  intros Hv He. unfold handleError. with_video Hv. rewrite He. cbn.
  repeat split; try (intros ->; reflexivity).
  intros Hrange. destruct (me_code error) as [|[[|[]|]|[|[]|]|]|]; try reflexivity; lia.
Qed.

Lemma C5_error_messages_witness :
  let w := browserSets (set_el_error (Some (mkMediaError 3))) playerWorld in
  videoError (react (fire handleError w)) = Some "Video format not supported or corrupted".
Proof.
  intros w.
  exact (proj1 (proj2 (proj2
    (C5_error_messages w (set_el_error (Some (mkMediaError 3)) (newVideoElement 0))
       (mkMediaError 3) eq_refl eq_refl))) eq_refl).
Defined.

(** C10. An error event that finds no error object ([video.error] is
    null, or there is no element at all) still sets [isPlaying] and
    [isBuffering] to false, and leaves the error message as it was. *)
Theorem C10_error_without_error_object (w : World) :
  videoRef w ≫= el_error = None ->
  let s' := react (fire handleError w) in
  isPlaying s' = false /\
  isBuffering s' = false /\
  videoError s' = videoError (react w).
Proof.
  intros He. unfold handleError. run_handler. rewrite He. cbn. auto.
Qed.

Lemma C10_error_without_error_object_witness :
  let w := upd_react (with_isPlaying true (with_videoError (Some "earlier") (react playerWorld)))
             playerWorld in
  isPlaying (react (fire handleError w)) = false /\
  isBuffering (react (fire handleError w)) = false /\
  videoError (react (fire handleError w)) = Some "earlier".
Proof.
  intros w.
  exact (C10_error_without_error_object w eq_refl).
Defined.

(** ** Volume, mute, skip and seek *)

Section PlaybackProperties.

Local Open Scope Q_scope.

(** C6. For a volume [v] in [0, 1], [handleVolumeChange] stores [v],
    assigns [v] to the native element's volume, and makes [muted], in
    the state and on the element, true exactly when [v] is zero. *)
Theorem C6_volume_change (v : Q) (w : World) (video : HTMLVideoElement) :
  0 <= v <= 1 ->
  videoRef w = Some video ->
  let w' := fire (handleVolumeChange v) w in
  volume (react w') = v /\
  el_volume <$> videoRef w' = Some v /\
  (isMuted (react w') = true <-> v == 0) /\
  el_muted <$> videoRef w' = Some (isMuted (react w')) /\
  0 <= volume (react w') <= 1.
Proof.
  intros Hrange Hv. unfold handleVolumeChange. with_video Hv.
  repeat split; try reflexivity; try apply Hrange.
  - apply Qeq_bool_iff.
  - apply Qeq_bool_iff.
Qed.

Lemma C6_volume_change_witness :
  let w' := fire (handleVolumeChange (1 # 4)) playerWorld in
  volume (react w') = 1 # 4 /\
  el_volume <$> videoRef w' = Some (1 # 4) /\
  (isMuted (react w') = true <-> 1 # 4 == 0) /\
  el_muted <$> videoRef w' = Some (isMuted (react w')) /\
  0 <= volume (react w') <= 1.
Proof.
  refine (C6_volume_change (1 # 4) playerWorld (newVideoElement 0%nat) _ eq_refl).
  split; discriminate.
Defined.

(** C7. From the position [t], with the stored duration [d], skipping
    backward assigns [max(0, t - 10)] and skipping forward assigns
    [min(d, t + 10)] to the native element's position; the first is
    never negative, the second never beyond [d]. *)
Theorem C7_skip_clamped (t d : Q) (w : World) (video : HTMLVideoElement) :
  videoRef w = Some video ->
  el_currentTime video = t ->
  duration (react w) = d ->
  el_currentTime <$> videoRef (fire skipBackward w) = Some (Qmax 0 (t - 10)) /\
  el_currentTime <$> videoRef (fire skipForward w) = Some (Qmin d (t + 10)) /\
  0 <= Qmax 0 (t - 10) /\
  Qmin d (t + 10) <= d.
Proof.
  intros Hv <- <-. unfold skipBackward, skipForward. with_video Hv.
  repeat split; try reflexivity.
  - apply Q.le_max_l.
  - apply Q.le_min_l.
Qed.

Lemma C7_skip_clamped_witness :
  let w := browserSets (set_el_currentTime 4) (upd_react (with_duration 12 (react playerWorld))
             playerWorld) in
  el_currentTime <$> videoRef (fire skipBackward w) = Some (Qmax 0 (4 - 10)) /\
  el_currentTime <$> videoRef (fire skipForward w) = Some (Qmin 12 (4 + 10)) /\
  0 <= Qmax 0 (4 - 10) /\
  Qmin 12 (4 + 10) <= 12.
Proof.
  intros w.
  exact (C7_skip_clamped 4 12 w (set_el_currentTime 4 (newVideoElement 0%nat))
           eq_refl eq_refl eq_refl).
Defined.

(** C8. A click on the progress bar at the fraction
    [f = clickX / width] of its width, with [f] in [0, 1] (so that the
    bar has a width), assigns [f * duration] to the native element's
    position; for a duration that is not negative this lies between 0
    and the duration. *)
Theorem C8_progress_click_seek
    (clientX f : Q) (rect : DOMRect) (w : World)
    (bar : HTMLDivElement) (video : HTMLVideoElement) :
  progressRef w = Some bar ->
  videoRef w = Some video ->
  ~ rect_width rect == 0 ->
  f = (clientX - rect_left rect) / rect_width rect ->
  0 <= f <= 1 ->
  el_currentTime <$> videoRef (fire (handleProgressClick clientX rect) w)
    = Some (f * duration (react w)) /\
  (0 <= duration (react w) ->
   0 <= f * duration (react w) <= duration (react w)).
Proof.
  intros Hbar Hv _ -> [Hlo Hhi]. unfold handleProgressClick. run_handler.
  rewrite Hbar, Hv. cbn. rewrite Hv. cbn. split; [reflexivity|].
  intros Hd. split.
  - apply Qmult_le_0_compat; assumption.
  - rewrite <- (Qmult_1_l (duration (react w))) at 2.
    apply Qmult_le_compat_r; assumption.
Qed.

Lemma C8_progress_click_seek_witness :
  let w := upd_react (with_duration 120 (react playerWorld)) playerWorld in
  el_currentTime <$> videoRef (fire (handleProgressClick 250 (mkDOMRect 50 800)) w)
    = Some ((250 - 50) / 800 * 120) /\
  (0 <= 120 -> 0 <= (250 - 50) / 800 * 120 <= 120).
Proof.
  intros w.
  refine (C8_progress_click_seek 250 ((250 - 50) / 800) (mkDOMRect 50 800) w
            DivElement (newVideoElement 0%nat) eq_refl eq_refl _ eq_refl _).
  - discriminate.
  - split; discriminate.
Defined.

End PlaybackProperties.

(** ** Mute toggle *)

(** What the toggle does with the element on screen: the stored flag
    is negated, and the element's flag with it when the two agreed; the
    stored volume and the element's volume are unchanged, whatever they
    were. *)
Lemma toggleMute_in_sync (w : World) (video : HTMLVideoElement) :
  videoRef w = Some video ->
  el_muted video = isMuted (react w) ->
  let w' := fire toggleMute w in
  isMuted (react w') = negb (isMuted (react w)) /\
  el_muted <$> videoRef w' = Some (negb (el_muted video)) /\
  volume (react w') = volume (react w) /\
  el_volume <$> videoRef w' = Some (el_volume video).
Proof.
  intros Hv Hsync. unfold toggleMute. with_video Hv. rewrite Hsync.
  repeat split; reflexivity.
Qed.

(** Every write of the element's muted flag is paired with the same
    write of the stored flag: after the toggle and after a volume
    change the two agree. *)
Lemma muted_writes_are_paired (w : World) (video : HTMLVideoElement) (v : Q) :
  videoRef w = Some video ->
  el_muted <$> videoRef (fire toggleMute w)
    = Some (isMuted (react (fire toggleMute w))) /\
  el_muted <$> videoRef (fire (handleVolumeChange v) w)
    = Some (isMuted (react (fire (handleVolumeChange v) w))).
Proof.
  intros Hv. unfold toggleMute, handleVolumeChange. with_video Hv.
  split; reflexivity.
Qed.

(** C9 fails on the element, by a slip: a new video element is not given
    the stored flag.  After [remountTrace] (mute, error, discard, pick
    again) the stored flag is still true while the new element is not
    muted; the toggle then makes the stored flag false and assigns false
    to the element, whose flag is thus not flipped.  The stored volume
    is unchanged. *)
Theorem C9_native_flag_not_flipped :
  exists w : World,
    run remountTrace mounted = Some w /\
    isMuted (react w) = true /\
    el_muted <$> videoRef w = Some false /\
    isMuted (react (fire toggleMute w)) = false /\
    el_muted <$> videoRef (fire toggleMute w) = Some false /\
    volume (react (fire toggleMute w)) = volume (react w).
Proof.
  eexists. split; [vm_compute; reflexivity|]. vm_compute. auto.
Qed.

(** * Further properties *)

(** ** The time display *)

Section FormatTimeProperties.

Local Open Scope Q_scope.

Lemma Qfloor_unique (z : Z) (x : Q) :
  inject_Z z <= x -> x < inject_Z (z + 1) -> Qfloor x = z.
Proof.
  intros Hlo Hhi.
  pose proof (Qfloor_le x) as Hfl. pose proof (Qlt_floor x) as Hlt.
  assert (inject_Z (Qfloor x) < inject_Z (z + 1)) as H1 by lra.
  assert (inject_Z z < inject_Z (Qfloor x + 1)) as H2 by lra.
  rewrite <- Zlt_Qlt in H1, H2. lia.
Qed.

Lemma Qfloor_minus_Z (x : Q) (z : Z) : Qfloor (x - inject_Z z) = (Qfloor x - z)%Z.
Proof.
  apply Qfloor_unique.
  - pose proof (Qfloor_le x). unfold Z.sub. rewrite inject_Z_plus, inject_Z_opp. lra.
  - pose proof (Qlt_floor x) as H.
    replace (Qfloor x - z + 1)%Z with ((Qfloor x + 1) + - z)%Z by lia.
    rewrite inject_Z_plus, inject_Z_opp. lra.
Qed.

Lemma Qfloor_div_pos (x : Q) (k : Z) :
  (0 < k)%Z -> Qfloor (x / inject_Z k) = (Qfloor x / k)%Z.
Proof.
  intros Hk.
  assert (0 < inject_Z k) as HkQ by (rewrite <- (Zlt_Qlt 0); exact Hk).
  pose proof (Qfloor_le x) as Hfl. pose proof (Qlt_floor x) as Hlt.
  pose proof (Z.div_mod (Qfloor x) k ltac:(lia)) as Hdm.
  pose proof (Z.mod_pos_bound (Qfloor x) k Hk) as Hmod.
  apply Qfloor_unique.
  - apply Qle_shift_div_l; [exact HkQ|].
    rewrite <- inject_Z_mult.
    apply Qle_trans with (inject_Z (Qfloor x)); [|exact Hfl].
    rewrite <- Zle_Qle. lia.
  - apply Qlt_shift_div_r; [exact HkQ|].
    rewrite <- inject_Z_mult.
    apply Qlt_le_trans with (inject_Z (Qfloor x + 1)); [exact Hlt|].
    rewrite <- Zle_Qle. lia.
Qed.

Lemma truncate_nonneg (x : Q) : 0 <= x -> truncate x = Qfloor x.
Proof.
  intros Hx. unfold truncate.
  destruct (Qle_bool 0 x) eqn:Hb; [reflexivity|].
  apply Qle_bool_iff in Hx. congruence.
Qed.

(** For a position that is not negative, [x % k] takes out the whole
    multiples of [k]. *)
Lemma remainder_nonneg (x : Q) (k : Z) :
  (0 < k)%Z -> 0 <= x ->
  remainder x (inject_Z k) == x - inject_Z (k * (Qfloor x / k)).
Proof.
  intros Hk Hx. unfold remainder.
  assert (0 < inject_Z k) as HkQ by (rewrite <- (Zlt_Qlt 0); exact Hk).
  rewrite truncate_nonneg.
  - rewrite Qfloor_div_pos by exact Hk. rewrite inject_Z_mult. reflexivity.
  - apply Qle_shift_div_l; [exact HkQ|]. lra.
Qed.

(** The three counts of [formatTime], by the whole seconds of the time. *)
Lemma formatTime_fields (time : Q) :
  0 <= time ->
  let n := Qfloor time in
  Math_floor (time / 3600) = (n / 3600)%Z /\
  Math_floor (remainder time 3600 / 60) = (n mod 3600 / 60)%Z /\
  Math_floor (remainder time 60) = (n mod 60)%Z.
Proof.
  intros Ht n. unfold Math_floor.
  change 3600 with (inject_Z 3600). change 60 with (inject_Z 60).
  repeat split.
  - apply Qfloor_div_pos. lia.
  - rewrite (remainder_nonneg time 3600) by (lia || exact Ht).
    rewrite Qfloor_div_pos by lia. rewrite Qfloor_minus_Z.
    fold n. f_equal. rewrite Z.mod_eq by lia. reflexivity.
  - rewrite (remainder_nonneg time 60) by (lia || exact Ht).
    rewrite Qfloor_minus_Z. fold n. rewrite Z.mod_eq by lia. reflexivity.
Qed.

Lemma two_digits (z : Z) :
  (0 <= z < 60)%Z -> String.length (padStart 2 "0" (Js.Z_toString z)) = 2%nat.
Proof.
  intros Hz. rewrite <- (Z2Nat.id z) by lia.
  assert (Z.to_nat z < 60)%nat as Hn by lia.
  revert Hn. generalize (Z.to_nat z). clear z Hz. intros k Hk.
  do 60 (destruct k as [|k]; [reflexivity|]). lia.
Qed.

(** X1. For a time that is not negative, [formatTime] prints the whole
    seconds of the time split into hours, minutes below 60 and seconds
    below 60: [h:mm:ss] once there is a full hour, [m:ss] before; the
    minutes after an hour and the seconds always take two characters. *)
Theorem formatTime_whole_seconds (time : Q) :
  0 <= time ->
  exists h m s : Z,
    (0 <= h /\ 0 <= m < 60 /\ 0 <= s < 60)%Z /\
    (h * 3600 + m * 60 + s)%Z = Qfloor time /\
    formatTime time =
      (if (0 <? h)%Z
       then Js.Z_toString h +:+ ":" +:+ padStart 2 "0" (Js.Z_toString m)
              +:+ ":" +:+ padStart 2 "0" (Js.Z_toString s)
       else Js.Z_toString m +:+ ":" +:+ padStart 2 "0" (Js.Z_toString s)) /\
    String.length (padStart 2 "0" (Js.Z_toString m)) = 2%nat /\
    String.length (padStart 2 "0" (Js.Z_toString s)) = 2%nat.
Proof.
  intros Ht. destruct (formatTime_fields time Ht) as (Hh & Hm & Hs).
  assert (0 <= Qfloor time)%Z as Hn.
  { rewrite <- (Qfloor_Z 0). apply Qfloor_resp_le. exact Ht. }
  exists (Qfloor time / 3600)%Z, (Qfloor time mod 3600 / 60)%Z, (Qfloor time mod 60)%Z.
  assert ((0 <= Qfloor time / 3600 /\ 0 <= Qfloor time mod 3600 / 60 < 60 /\
           0 <= Qfloor time mod 60 < 60)%Z) as Hr
    by (Z.to_euclidean_division_equations; lia).
  split; [exact Hr|]. split; [Z.to_euclidean_division_equations; lia|].
  split; [|split; apply two_digits; apply Hr].
  unfold formatTime. rewrite Hh, Hm, Hs. reflexivity.
Qed.

Lemma formatTime_whole_seconds_witness :
  exists h m s : Z,
    (0 <= h /\ 0 <= m < 60 /\ 0 <= s < 60)%Z /\
    (h * 3600 + m * 60 + s)%Z = Qfloor (1254 # 10) /\
    formatTime (1254 # 10) =
      (if (0 <? h)%Z
       then Js.Z_toString h +:+ ":" +:+ padStart 2 "0" (Js.Z_toString m)
              +:+ ":" +:+ padStart 2 "0" (Js.Z_toString s)
       else Js.Z_toString m +:+ ":" +:+ padStart 2 "0" (Js.Z_toString s)) /\
    String.length (padStart 2 "0" (Js.Z_toString m)) = 2%nat /\
    String.length (padStart 2 "0" (Js.Z_toString s)) = 2%nat.
Proof.
  refine (formatTime_whole_seconds (1254 # 10) _). discriminate.
Defined.

Example formatTime_two_minutes : formatTime (1254 # 10) = "2:05".
Proof. reflexivity. Qed.

Example formatTime_negative : formatTime (-61) = "-2:-1".
Proof. reflexivity. Qed.

(** X2. Two times with the same whole seconds are displayed alike: for
    a time that is not negative the fraction of a second is not shown. *)
Theorem formatTime_ignores_fraction (time : Q) :
  0 <= time -> formatTime time = formatTime (inject_Z (Qfloor time)).
Proof.
  intros Ht.
  assert (0 <= inject_Z (Qfloor time)) as Hn.
  { rewrite <- (Zle_Qle 0). rewrite <- (Qfloor_Z 0). apply Qfloor_resp_le. exact Ht. }
  destruct (formatTime_fields time Ht) as (Hh & Hm & Hs).
  destruct (formatTime_fields _ Hn) as (Hh' & Hm' & Hs').
  rewrite Qfloor_Z in Hh', Hm', Hs'.
  unfold formatTime. rewrite Hh, Hm, Hs, Hh', Hm', Hs'. reflexivity.
Qed.

Lemma formatTime_ignores_fraction_witness :
  formatTime (1254 # 10) = formatTime (inject_Z (Qfloor (1254 # 10))).
Proof.
  refine (formatTime_ignores_fraction (1254 # 10) _). discriminate.
Defined.

(** X3. The red bar: with a duration of 0 its width is 0 and nothing is
    divided; with a positive duration and a position between 0 and the
    duration, the width is between 0 and 100 percent. *)
Theorem progress_bounds (s : ReactState) :
  (duration s == 0 -> progress s = 0) /\
  (0 < duration s -> 0 <= currentTime s <= duration s ->
   progress s == currentTime s / duration s * 100 /\ 0 <= progress s <= 100).
Proof.
  unfold progress. split.
  - intros Hd. apply Qeq_bool_iff in Hd. rewrite Hd. reflexivity.
  - intros Hd [Hlo Hhi].
    destruct (Qeq_bool (duration s) 0) eqn:Hb.
    { apply Qeq_bool_iff in Hb. lra. }
    split; [reflexivity|].
    assert (0 <= currentTime s / duration s) as H0
      by (apply Qle_shift_div_l; [exact Hd|lra]).
    assert (currentTime s / duration s <= 1) as H1
      by (apply Qle_shift_div_r; [exact Hd|lra]).
    lra.
Qed.

Lemma progress_bounds_witness :
  let s := with_currentTime 30 (with_duration 120 initialState) in
  progress s == 30 / 120 * 100 /\ 0 <= progress s <= 100.
Proof.
  intros s. refine (proj2 (progress_bounds s) _ _).
  - reflexivity.
  - split; discriminate.
Defined.

End FormatTimeProperties.

(** ** Overlays and the volume control *)

Lemma errorOverlay_errorBox w : errorOverlay w = playerScreen w && errorBox (react w).
Proof. reflexivity. Qed.

(** X4. The error box, the spinner and the large play button exclude
    one another: in no state are two of them drawn. *)
Theorem overlays_exclusive (s : ReactState) :
  errorBox s && bufferingIndicator s = false /\
  errorBox s && centralPlayButton s = false /\
  bufferingIndicator s && centralPlayButton s = false.
Proof.
  unfold errorBox, bufferingIndicator, centralPlayButton.
  destruct (truthy (videoError s)), (isBuffering s), (isPlaying s), (isVideoLoaded s);
    repeat split; reflexivity.
Qed.

(** X5. The crossed-out speaker is drawn exactly when the slider stands
    at zero, whether through the mute flag or through a volume of 0. *)
Theorem muteIcon_iff_slider_zero (s : ReactState) :
  muteIcon s = true <-> (sliderValue s == 0)%Q.
Proof.
  unfold muteIcon, sliderValue. destruct (isMuted s); cbn.
  - split; reflexivity.
  - apply Qeq_bool_iff.
Qed.

(** X6. When the element reports that playback has started, the state
    is playing and none of the three overlays is drawn, whatever was
    shown before. *)
Theorem play_dismisses_overlays (w : World) :
  let s' := react (fire handlePlay w) in
  isPlaying s' = true /\
  errorBox s' = false /\
  bufferingIndicator s' = false /\
  centralPlayButton s' = false.
Proof. repeat split; reflexivity. Qed.

(** ** File names, labels and ids *)

Section StringProperties.

Local Open Scope string_scope.

Lemma append_nil (s : string) : EmptyString +:+ s = s.
Proof. reflexivity. Qed.

Lemma append_cons (c : ascii) (s1 s2 : string) :
  String c s1 +:+ s2 = String c (s1 +:+ s2).
Proof. reflexivity. Qed.

(** Lets [cbn] see through an append whose left side starts with known
    characters. *)
Ltac push_append := rewrite ?append_cons, ?append_nil; cbn.

Lemma length_append (s1 s2 : string) :
  String.length (s1 +:+ s2) = (String.length s1 + String.length s2)%nat.
Proof.
  induction s1 as [|c s1 IH]; push_append; [reflexivity|]. rewrite IH. reflexivity.
Qed.

Lemma substring_all (s : string) : substring 0 (String.length s) s = s.
Proof. induction s as [|c s IH]; cbn; [reflexivity|]. rewrite IH. reflexivity. Qed.

Lemma substring_append_r (q p : string) :
  substring (String.length q) (String.length p) (q +:+ p) = p.
Proof. induction q as [|c q IH]; push_append; [apply substring_all|exact IH]. Qed.

Lemma substring_split (n : nat) : forall s : string,
  (n <= String.length s)%nat ->
  s = substring 0 n s +:+ substring n (String.length s - n) s.
Proof.
  induction n as [|n IH]; intros s Hn.
  - rewrite Nat.sub_0_r, substring_all. destruct s; reflexivity.
  - destruct s as [|c s]; cbn in Hn; [lia|].
    cbn. push_append. rewrite <- IH by lia. reflexivity.
Qed.

(** [endsWith] holds exactly of the strings that are something
    followed by the suffix. *)
Lemma endsWith_spec (s p : string) :
  Js.endsWith s p = true <-> exists q, s = q +:+ p.
Proof.
  unfold Js.endsWith. rewrite andb_true_iff, Nat.leb_le, String.eqb_eq. split.
  - intros [Hlen Hsub].
    exists (substring 0 (String.length s - String.length p) s).
    pose proof (substring_split (String.length s - String.length p) s ltac:(lia)) as Hs.
    replace (String.length s - (String.length s - String.length p))%nat
      with (String.length p) in Hs by lia.
    rewrite Hsub in Hs. exact Hs.
  - intros [q ->]. rewrite length_append. split; [lia|].
    replace (String.length q + String.length p - String.length p)%nat
      with (String.length q) by lia.
    apply substring_append_r.
Qed.

(** X7. A dropped file is taken for a subtitle file exactly when its
    name ends, in these very letters, with [.srt], [.vtt], [.ass] or
    [.ssa]. *)
Theorem isSubtitleName_spec (file : File) :
  isSubtitleName file = true <->
  exists base ext,
    In ext [".srt"; ".vtt"; ".ass"; ".ssa"] /\ file_name file = base +:+ ext.
Proof.
  unfold isSubtitleName. rewrite !orb_true_iff, !endsWith_spec. split.
  - intros [[[[q H]|[q H]]|[q H]]|[q H]]; exists q; eexists; (split; [|exact H]);
      cbn; auto.
  - intros (q & ext & Hin & H). cbn in Hin.
    destruct Hin as [<-|[<-|[<-|[<-|[]]]]]; eauto 6.
Qed.

Example isSubtitleName_upper_case : isSubtitleName (mkFile "MOVIE.SRT" EmptyString) = false.
Proof. reflexivity. Qed.

Lemma not_slash_dot_no_match (e rest : string) :
  Js.all_chars Js.not_slash_dot (e +:+ String "." rest) = false.
Proof.
  induction e as [|c e IH]; push_append; [reflexivity|].
  rewrite IH. apply andb_false_r.
Qed.

(** X8. The label of a subtitle track is the file name without its last
    extension: from a name [base.ext], where [ext] is not empty and has
    no dot and no slash, exactly [base] is left, whatever dots and
    slashes [base] has. *)
Theorem strip_extension_removes_last (base ext : string) :
  ext <> EmptyString ->
  Js.all_chars Js.not_slash_dot ext = true ->
  Js.strip_extension (base +:+ String "." ext) = base.
Proof.
  intros Hne Hext. induction base as [|c base IH]; push_append.
  - rewrite Hext. destruct ext; [contradiction|reflexivity].
  - rewrite IH.
    destruct (Ascii.eqb_spec c "."); [|reflexivity].
    cbn. rewrite not_slash_dot_no_match, andb_false_r. reflexivity.
Qed.

Lemma strip_extension_removes_last_witness :
  Js.strip_extension ("dir.d/movie.en" +:+ String "." "srt") = "dir.d/movie.en".
Proof.
  refine (strip_extension_removes_last "dir.d/movie.en" "srt" _ eq_refl). discriminate.
Defined.

(** X9. What [strip_extension] takes away is a suffix of the name, and
    it is either nothing or a dot with a non-empty extension free of
    dots and slashes; a name without any dot is left as it is. *)
Theorem strip_extension_suffix (name : string) :
  (exists ext,
     name = Js.strip_extension name +:+ ext /\
     (ext = EmptyString \/
      exists e, ext = String "." e /\ e <> EmptyString /\
                Js.all_chars Js.not_slash_dot e = true)) /\
  (Js.all_chars (fun c => negb (Ascii.eqb c ".")) name = true ->
   Js.strip_extension name = name).
Proof.
  split.
  - induction name as [|c name (ext & Heq & Hext)]; cbn.
    + exists EmptyString. auto.
    + destruct (Ascii.eqb_spec c ".") as [->|Hc]; cbn.
      * destruct (String.eqb_spec name EmptyString) as [->|Hne]; cbn.
        { exists EmptyString. auto. }
        destruct (Js.all_chars Js.not_slash_dot name) eqn:Hall.
        { exists (String "." name). split; [reflexivity|]. right. eauto. }
        exists ext. split; [push_append; congruence|exact Hext].
      * exists ext. split; [push_append; congruence|exact Hext].
  - induction name as [|c name IH]; cbn; [reflexivity|].
    intros [Hc Hrest]%andb_true_iff.
    destruct (Ascii.eqb c "."); [discriminate|]. cbn. rewrite IH by exact Hrest.
    reflexivity.
Qed.

Lemma strip_extension_suffix_witness : Js.strip_extension "README" = "README".
Proof. exact (proj2 (strip_extension_suffix "README") eq_refl). Defined.

(** Printing a whole number and reading it back. *)
Lemma parseWhole_toString (z : Z) : parseWhole (Js.Z_toString z) = Some z.
Proof.
  unfold parseWhole, Js.Z_toString.
  rewrite NilZero.isi.
  - cbn. rewrite DecimalZ.of_to. reflexivity.
  - destruct z; cbn; try discriminate.
    intros [= H]. exact (DecimalPos.Unsigned.to_uint_nonnil _ H).
  - destruct z; cbn; try discriminate.
    intros [= H]. exact (DecimalPos.Unsigned.to_uint_nonnil _ H).
Qed.

Lemma Z_toString_inj (a b : Z) : Js.Z_toString a = Js.Z_toString b -> a = b.
Proof.
  intros H. apply (f_equal parseWhole) in H.
  rewrite !parseWhole_toString in H. congruence.
Qed.

(** X10. The id of a subtitle track is [subtitle-] followed by the
    time of its creation, which can be read back from it; tracks
    created at different times have different ids, whatever their
    files. *)
Theorem subtitle_id_by_time
    (file1 file2 : File) (now1 now2 : Z) (url1 url2 : ObjectURL) :
  (exists digits,
     st_id (newSubtitleTrack file1 now1 url1) = "subtitle-" +:+ digits /\
     parseWhole digits = Some now1) /\
  (st_id (newSubtitleTrack file1 now1 url1) = st_id (newSubtitleTrack file2 now2 url2) ->
   now1 = now2).
Proof.
  split.
  - eexists. split; [reflexivity|apply parseWhole_toString].
  - cbn. intros [= H]. apply Z_toString_inj. exact H.
Qed.

Lemma subtitle_id_by_time_witness :
  st_id (newSubtitleTrack movie 1000 0%nat) <> st_id (newSubtitleTrack movie 1001 0%nat).
Proof.
  intros H.
  pose proof (proj2 (subtitle_id_by_time movie movie 1000 1001 0%nat 0%nat) H) as Heq.
  discriminate Heq.
Defined.

End StringProperties.

(** ** Adding subtitles and dropping files *)

Section IntakeProperties.

Local Open Scope string_scope.

(** X11. A subtitle file that is picked is registered under the next
    URL and its track is put after the tracks already there, which keep
    their order, and is selected; the video source is not touched.
    Without a file (the dialog was cancelled) nothing changes at all. *)
Theorem handleSubtitleSelect_appends (files : option (list File)) (now : Z) (w : World) :
  (forall file,
     files ≫= head = Some file ->
     let w' := fire (handleSubtitleSelect files now) w in
     let track := newSubtitleTrack file now (nextBlob w) in
     subtitleTracks (react w') = (subtitleTracks (react w) ++ [track])%list /\
     selectedSubtitleTrack (react w') = st_id track /\
     blobStore w' !! st_src track = Some file /\
     videoFile (react w') = videoFile (react w)) /\
  (files ≫= head = None -> fire (handleSubtitleSelect files now) w = w).
Proof.
  split.
  - intros file Hfile. unfold handleSubtitleSelect. rewrite Hfile. run_handler.
    repeat split; try reflexivity. apply lookup_insert_eq.
  - intros Hnone. unfold handleSubtitleSelect. rewrite Hnone. reflexivity.
Qed.

Lemma handleSubtitleSelect_appends_witness :
  fire (handleSubtitleSelect (Some []) 1000) playerWorld = playerWorld /\
  selectedSubtitleTrack (react (fire (handleSubtitleSelect (Some [subtitles]) 1000)
                                  playerWorld)) = "subtitle-1000".
Proof.
  split.
  - exact (proj2 (handleSubtitleSelect_appends (Some []) 1000 playerWorld) eq_refl).
  - exact (proj1 (proj2 (proj1 (handleSubtitleSelect_appends (Some [subtitles]) 1000
                                  playerWorld) subtitles eq_refl))).
Defined.

(** X12. A drop acts only on what it finds.  Without a file of a video
    type the source, its name and format, the error and the loaded flag
    stay; without a file with a subtitle name the track list and the
    selection stay; with neither, the drop only prevents the browser's
    default action. *)
Theorem handleDrop_only_what_it_finds (files : list File) (now : Z) (w : World) :
  let s := react w in
  let s' := react (fire (handleDrop files now) w) in
  (List.find isVideoType files = None ->
   videoFile s' = videoFile s /\ fileName s' = fileName s /\
   fileFormat s' = fileFormat s /\ videoError s' = videoError s /\
   isVideoLoaded s' = isVideoLoaded s) /\
  (List.find isSubtitleName files = None ->
   subtitleTracks s' = subtitleTracks s /\
   selectedSubtitleTrack s' = selectedSubtitleTrack s) /\
  (List.find isVideoType files = None -> List.find isSubtitleName files = None ->
   fire (handleDrop files now) w = upd_calls (calls w ++ [CallPreventDefault]) w).
Proof.
  unfold handleDrop.
  destruct (List.find isVideoType files), (List.find isSubtitleName files);
    run_handler; repeat split; intros; try discriminate; reflexivity.
Qed.

Lemma handleDrop_only_what_it_finds_witness :
  fire (handleDrop [mkFile "notes.txt" "text/plain"] 1000) playerWorld
  = upd_calls (calls playerWorld ++ [CallPreventDefault]) playerWorld.
Proof.
  exact (proj2 (proj2 (handleDrop_only_what_it_finds [mkFile "notes.txt" "text/plain"]
                         1000 playerWorld)) eq_refl eq_refl).
Defined.

End IntakeProperties.

(** ** Audio tracks *)

Section AudioTrackProperties.

Local Open Scope string_scope.

Lemma nat_toString_read (n : nat) :
  Nat.of_uint <$> NilZero.uint_of_string (Js.nat_toString n) = Some n.
Proof.
  unfold Js.nat_toString.
  destruct (Nat.to_uint n) eqn:Hd;
    [apply (f_equal Nat.of_uint) in Hd; rewrite DecimalNat.Unsigned.of_to in Hd;
     subst n; reflexivity|..].
  all: rewrite NilZero.usu by discriminate; cbn [fmap option_fmap option_map].
  all: rewrite <- Hd, DecimalNat.Unsigned.of_to; reflexivity.
Qed.

Lemma nat_toString_inj : Inj (=) (=) Js.nat_toString.
Proof.
  intros a b Hab. pose proof (nat_toString_read a) as Ha.
  rewrite Hab, nat_toString_read in Ha. congruence.
Qed.

Lemma or_default_nonempty (s d : string) :
  d <> EmptyString -> Js.or_default s d <> EmptyString.
Proof.
  intros Hd. unfold Js.or_default.
  destruct (String.eqb_spec s EmptyString); assumption.
Qed.

(** X13. When metadata has loaded, the component lists one audio track
    for each track of the element, in the same order; their ids are the
    positions [0, 1, ...] printed, hence all different; no label and no
    language is empty, and a label the element gives is kept.  With at
    least one track the first is selected; with none, or when the
    element has no track list, the earlier selection stays. *)
Theorem handleLoadedMetadata_audio_tracks
    (w : World) (video : HTMLVideoElement) :
  videoRef w = Some video ->
  let natives := default [] (el_audioTracks video) in
  let s' := react (fire handleLoadedMetadata w) in
  length (audioTracks s') = length natives /\
  at_id <$> audioTracks s' = Js.nat_toString <$> seq 0 (length natives) /\
  NoDup (at_id <$> audioTracks s') /\
  Forall (fun t => at_label t <> EmptyString /\ at_language t <> EmptyString)
    (audioTracks s') /\
  (forall i track, natives !! i = Some track -> nat_label track <> EmptyString ->
     at_label <$> audioTracks s' !! i = Some (nat_label track)) /\
  selectedAudioTrack s' =
    match natives with
    | [] => selectedAudioTrack (react w)
    | _ :: _ => "0"
    end /\
  (natives <> [] -> at_id <$> head (audioTracks s') = Some (selectedAudioTrack s')).
Proof.
  intros Hv natives. unfold handleLoadedMetadata. with_video Hv.
  assert (match el_audioTracks video with
          | Some audioTracks => imap audioTrackOf audioTracks
          | None => []
          end = imap audioTrackOf natives) as -> by (subst natives; destruct (el_audioTracks video); reflexivity).
  assert (at_id <$> imap audioTrackOf natives = Js.nat_toString <$> seq 0 (length natives))
    as Hids by (rewrite fmap_imap, <- imap_seq_0; apply imap_ext; reflexivity).
  destruct natives as [|first rest] eqn:Hn.
  - cbn. repeat split; try constructor; try done.
  - cbn [length Nat.ltb Nat.leb imap]. cbn -[seq fmap imap].
    change (audioTrackOf 0 first :: imap (audioTrackOf ∘ S) rest)
      with (imap audioTrackOf (first :: rest)) in *.
    change (S (length rest)) with (length (first :: rest)) in *.
    split; [cbn; f_equal; apply length_imap|].
    split; [exact Hids|].
    split; [rewrite Hids; apply (@NoDup_fmap_2 _ _ Js.nat_toString nat_toString_inj), NoDup_seq|].
    split.
    { apply Forall_forall. intros t Ht. apply (list_elem_of_lookup_1 _ _) in Ht as [i Hi].
      rewrite list_lookup_imap in Hi.
      destruct ((first :: rest) !! i) as [n|]; [|discriminate]. injection Hi as <-.
      split; apply or_default_nonempty; discriminate. }
    split.
    { intros i track Hi Hlabel. rewrite list_lookup_imap, Hi. cbn.
      unfold Js.or_default. destruct (String.eqb_spec (nat_label track) EmptyString);
        [contradiction|reflexivity]. }
    split; reflexivity.
Qed.

Lemma handleLoadedMetadata_audio_tracks_witness :
  let natives := [mkNativeAudioTrack EmptyString "en"; mkNativeAudioTrack "Commentary" EmptyString] in
  let w := browserSets (set_el_audioTracks (Some natives)) playerWorld in
  audioTracks (react (fire handleLoadedMetadata w))
  = [mkAudioTrack "0" "Track 1" "en"; mkAudioTrack "1" "Commentary" "Unknown"] /\
  NoDup (at_id <$> audioTracks (react (fire handleLoadedMetadata w))).
Proof.
  intros natives w. split; [reflexivity|].
  exact (proj1 (proj2 (proj2
    (handleLoadedMetadata_audio_tracks w
       (set_el_audioTracks (Some natives) (newVideoElement 0%nat)) eq_refl)))).
Defined.

End AudioTrackProperties.

(** ** Keys, mute and the timer *)

Section ControlProperties.

Local Open Scope string_scope.

#[local] Hint Unfold cleanupTimeouts : handler.

(** X14. A key whose code is none of the eight of the shortcut table
    does nothing: the world is as before, and the key's default action
    is not prevented. *)
Theorem handleKeyPress_other_keys (event : KeyboardEvent) (r : ReactState) (w : World) :
  ~ In (key_code event)
       ["Space"; "KeyM"; "ArrowLeft"; "ArrowRight"; "KeyF"; "KeyK"; "KeyJ"; "KeyL"] ->
  exec (handleKeyPress event) r w = w.
Proof.
  intros Hnot. unfold handleKeyPress.
  destruct (target_isInput event); [reflexivity|].
  cbn [switch].
  repeat match goal with
         | |- context [String.eqb (key_code event) ?label] =>
             destruct (String.eqb_spec (key_code event) label) as [Heq|_];
             [exfalso; apply Hnot; rewrite Heq; cbn; tauto|]
         end.
  reflexivity.
Qed.

Lemma handleKeyPress_other_keys_witness :
  exec (handleKeyPress (mkKeyboardEvent "Escape" false)) (react playerWorld) playerWorld
  = playerWorld.
Proof.
  refine (handleKeyPress_other_keys (mkKeyboardEvent "Escape" false) _ _ _).
  cbn. intros [H|[H|[H|[H|[H|[H|[H|[H|[]]]]]]]]]; discriminate H.
Defined.

Lemma toggleMute_step (w : World) (video : HTMLVideoElement) (url : ObjectURL) :
  videoFile (react w) = Some url ->
  videoRef w = Some video ->
  let w1 := dispatch toggleMute w in
  videoFile (react w1) = Some url /\
  videoRef w1 = Some (set_el_src url (set_el_muted (negb (isMuted (react w))) video)) /\
  isMuted (react w1) = negb (isMuted (react w)) /\
  volume (react w1) = volume (react w).
Proof.
  intros Hfile Hv. unfold toggleMute. run_handler. rewrite Hv. cbn.
  unfold render. cbn. rewrite Hfile, Hv. cbn. rewrite Hfile. auto.
Qed.

(** X15. Two mute toggles in a row, on the player screen, bring the
    stored flag back and leave the element's flag equal to it; the
    stored volume and the element's volume are as before. *)
Theorem toggleMute_twice (w : World) (video : HTMLVideoElement) (url : ObjectURL) :
  videoFile (react w) = Some url ->
  videoRef w = Some video ->
  let w2 := dispatch toggleMute (dispatch toggleMute w) in
  isMuted (react w2) = isMuted (react w) /\
  el_muted <$> videoRef w2 = Some (isMuted (react w)) /\
  volume (react w2) = volume (react w) /\
  el_volume <$> videoRef w2 = Some (el_volume video).
Proof.
  intros Hfile Hv.
  destruct (toggleMute_step w video url Hfile Hv) as (Hfile1 & Hv1 & Hm1 & Hvol1).
  destruct (toggleMute_step _ _ url Hfile1 Hv1) as (_ & Hv2 & Hm2 & Hvol2).
  cbn zeta. rewrite Hv2, Hm2, Hvol2, Hm1, Hvol1, negb_involutive.
  repeat split; reflexivity.
Qed.

Lemma toggleMute_twice_witness :
  let w2 := dispatch toggleMute (dispatch toggleMute playerWorld) in
  isMuted (react w2) = false /\
  el_muted <$> videoRef w2 = Some false /\
  volume (react w2) = volume (react playerWorld) /\
  el_volume <$> videoRef w2 = Some (el_volume (newVideoElement 0)).
Proof.
  exact (toggleMute_twice playerWorld (newVideoElement 0) 0%nat eq_refl eq_refl).
Defined.

(** X16. In a reachable world at most one timer is pending, and the
    cleanup of the component leaves none. *)
Theorem single_timer_and_cleanup (w : World) :
  reachable w ->
  size (timers w) <= 1 /\ timers (fire cleanupTimeouts w) = ∅.
Proof.
  intros Hreach. pose proof (reachable_timerInv w Hreach) as Hinv. split.
  - destruct (controlsTimeoutRef w) as [id|] eqn:Href.
    + destruct (timers w !! id) as [t|] eqn:Hl.
      * assert (timers w = {[ id := t ]}) as ->; [|rewrite map_size_singleton; lia].
        apply map_eq; intros i. rewrite lookup_singleton. case_decide; [congruence|].
        destruct (timers w !! i) eqn:Hi; [|reflexivity].
        destruct (Hinv _ _ Hi); congruence.
      * assert (timers w = ∅) as ->; [|rewrite map_size_empty; lia].
        apply map_eq; intros i. rewrite lookup_empty.
        destruct (timers w !! i) eqn:Hi; [|reflexivity].
        destruct (Hinv _ _ Hi); congruence.
    + assert (timers w = ∅) as ->; [|rewrite map_size_empty; lia].
      apply map_eq; intros i. rewrite lookup_empty.
      destruct (timers w !! i) eqn:Hi; [|reflexivity].
      destruct (Hinv _ _ Hi); congruence.
  - crunch; apply map_eq; intros i; rewrite lookup_empty, ?lookup_delete;
      try case_decide; try reflexivity;
      (destruct (timers w !! i) eqn:Hi; [|reflexivity]);
      destruct (Hinv _ _ Hi); congruence.
Qed.

Lemma single_timer_and_cleanup_witness :
  size (timers playerWorld) <= 1 /\ timers (fire cleanupTimeouts playerWorld) = ∅.
Proof.
  exact (single_timer_and_cleanup playerWorld
           (reachable_step (PickVideo (Some [movie])) mounted playerWorld
              reachable_mounted eq_refl)).
Defined.

End ControlProperties.

(** ** What holds in every reachable world *)

Section ReachableProperties.

Local Open Scope string_scope.

(** Splits the goal of a [KeyDown] event by the key. *)
Ltac key_cases :=
  lazymatch goal with
  | |- context [handleKeyPress ?event] =>
      unfold fire, handleKeyPress;
      destruct (target_isInput event);
      [|cbn [switch];
        repeat match goal with
               | |- context [String.eqb ?c ?l] => destruct (String.eqb c l)
               end]
  | _ => idtac
  end.

(** The cases of [step], with the state cells of the world it leaves. *)
Ltac state_cases e Hstep :=
  step_cases e Hstep; unfold dispatch; rewrite ?render_react; key_cases.

Lemma stateInv_step e w w' : stateInv w -> step e w = Some w' -> stateInv w'.
Proof.
  intros (Hdrag & Herr & Hupload) Hstep. unfold stateInv.
  state_cases e Hstep.
  all: crunch; rewrite ?Hdrag.
  all: try solve [intuition congruence].
  - (* the file is discarded: the error box was on screen *)
    unfold errorOverlay in *.
    destruct (videoError (react w)); [|rewrite andb_false_r in *; discriminate].
    destruct Herr; [discriminate|auto].
  - (* playback starts: the player is on screen *)
    unfold playerScreen, uploadScreen in *.
    destruct (videoFile (react w)); [|discriminate]. intuition congruence.
Qed.

Lemma stateInv_mounted : stateInv mounted.
Proof. repeat split; auto. Qed.

Lemma reachable_stateInv w : reachable w -> stateInv w.
Proof.
  induction 1 as [|e w w' _ IH Hstep]; [apply stateInv_mounted|].
  exact (stateInv_step e w w' IH Hstep).
Qed.

(** X17. No event ever sets the dragging flag, so in a reachable world
    a time update of the element always reaches the displayed
    position. *)
Theorem time_update_mirrors (w w' : World) (time : Q) :
  reachable w ->
  step (NativeTimeUpdate time) w = Some w' ->
  isDragging (react w') = false /\ currentTime (react w') = time.
Proof.
  intros Hreach Hstep.
  destruct (reachable_stateInv w Hreach) as (Hdrag & _).
  pose proof (reachable_player_has_video w Hreach) as Hvideo.
  cbn [step] in Hstep. unfold guard in Hstep.
  destruct (playerScreen w); [|discriminate]. injection Hstep as <-.
  destruct (Hvideo eq_refl) as [video Hv].
  unfold dispatch. rewrite render_react. unfold handleTimeUpdate, browserSets.
  run_handler. rewrite Hdrag, Hv. cbn. auto.
Qed.

Lemma time_update_mirrors_witness :
  currentTime (react (dispatch handleTimeUpdate
                        (browserSets (set_el_currentTime 42) playerWorld))) = 42%Q.
Proof.
  exact (proj2 (time_update_mirrors playerWorld _ 42
                  (reachable_step (PickVideo (Some [movie])) mounted playerWorld
                     reachable_mounted eq_refl)
                  eq_refl)).
Defined.

(** X18. In a reachable world nothing plays while an error message is
    stored: under the error box the state is not playing, and the
    controls are drawn visible. *)
Theorem error_stops_playback (w : World) :
  reachable w ->
  errorBox (react w) = true ->
  isPlaying (react w) = false /\ controlsVisible (react w) = true.
Proof.
  intros Hreach Hbox.
  destruct (reachable_stateInv w Hreach) as (_ & Herr & _).
  unfold errorBox, truthy in Hbox.
  assert (isPlaying (react w) = false) as Hp
    by (destruct (videoError (react w)); [destruct Herr; congruence|discriminate]).
  split; [exact Hp|]. unfold controlsVisible. rewrite Hp. apply orb_true_r.
Qed.

Lemma error_stops_playback_witness :
  isPlaying (react failedPlayer) = false /\ controlsVisible (react failedPlayer) = true.
Proof.
  refine (error_stops_playback failedPlayer _ eq_refl).
  apply (reachable_step (NativeError (Some (mkMediaError 4))) playerWorld);
    [|vm_compute; reflexivity].
  apply (reachable_step (PickVideo (Some [movie])) mounted); [|vm_compute; reflexivity].
  apply reachable_mounted.
Defined.

(** X19. In a reachable world the upload screen is never shown in the
    playing state; so a video that is dropped there, though the drop
    handler does not reset the playing flag, comes up not playing and
    with its controls visible. *)
Theorem dropped_video_starts_paused (w w' : World) (files : list File) (now : Z) :
  reachable w ->
  step (DropFiles files now) w = Some w' ->
  isPlaying (react w) = false /\
  isPlaying (react w') = false /\
  controlsVisible (react w') = true.
Proof.
  intros Hreach Hstep.
  destruct (reachable_stateInv w Hreach) as (_ & _ & Hupload).
  cbn [step] in Hstep. unfold guard, uploadScreen in Hstep.
  destruct (videoFile (react w)); [discriminate|]. injection Hstep as <-.
  specialize (Hupload eq_refl).
  assert (isPlaying (react (dispatch (handleDrop files now) w)) = false) as Hp.
  { unfold dispatch. rewrite render_react. crunch; exact Hupload. }
  split; [exact Hupload|]. split; [exact Hp|].
  unfold controlsVisible. rewrite Hp. apply orb_true_r.
Qed.

Lemma dropped_video_starts_paused_witness :
  isPlaying (react (dispatch (handleDrop [movie] 1000) mounted)) = false /\
  controlsVisible (react (dispatch (handleDrop [movie] 1000) mounted)) = true.
Proof.
  exact (proj2 (dropped_video_starts_paused mounted _ [movie] 1000
                  reachable_mounted eq_refl)).
Defined.

Lemma reachable_refsInv (w : World) : reachable w -> refsInv w.
Proof.
  intros Hreach.
  assert (exists w0, w = render w0) as [w0 ->].
  { destruct Hreach as [|e w w' _ Hstep]; [eexists; reflexivity|].
    step_cases e Hstep; eexists; reflexivity. }
  unfold refsInv. rewrite render_react. unfold render.
  destruct (videoFile (react w0)) as [url|]; [|auto].
  destruct (videoRef w0); cbn; eauto.
Qed.

(** X20. In a reachable world the refs agree with the screen: on the
    player screen the video element exists and plays the current
    source, and the progress bar and the container exist; on the upload
    screen none of the three exists. *)
Theorem refs_follow_screen (w : World) : reachable w -> refsInv w.
Proof. apply reachable_refsInv. Qed.

Lemma refs_follow_screen_witness : refsInv playerWorld /\ refsInv mounted.
Proof.
  split.
  - exact (refs_follow_screen playerWorld
             (reachable_step (PickVideo (Some [movie])) mounted playerWorld
                reachable_mounted eq_refl)).
  - exact (refs_follow_screen mounted reachable_mounted).
Defined.

Lemma urlsInv_register (w : World) (file : File) :
  urlsInv w ->
  (forall url, (url < S (nextBlob w))%nat <->
               is_Some (<[nextBlob w := file]> (blobStore w) !! url)) /\
  Forall (fun track => (st_src track < S (nextBlob w))%nat) (subtitleTracks (react w)).
Proof.
  intros (Hdom & _ & Htracks). split.
  - intros url. rewrite lookup_insert. case_decide; subst.
    + split; [eauto|lia].
    + rewrite <- Hdom. lia.
  - eapply Forall_impl; [exact Htracks|]. cbn. lia.
Qed.

Lemma urlsInv_step e w w' : urlsInv w -> step e w = Some w' -> urlsInv w'.
Proof.
  intros Hinv Hstep. pose proof Hinv as (Hdom & Hfile & Htracks).
  unfold urlsInv.
  step_cases e Hstep; unfold dispatch;
    rewrite ?render_react, ?render_blobStore, ?render_nextBlob; key_cases.
  all: try solve [crunch; auto].
  - (* handleFileSelect *)
    crunch; [|auto]. destruct (urlsInv_register w f Hinv) as [Hdom' _].
    split; [exact Hdom'|]. split; [intros url [= <-]; lia|constructor].
  - (* handleSubtitleSelect *)
    crunch; [|auto]. destruct (urlsInv_register w f Hinv) as [Hdom' Htracks'].
    split; [exact Hdom'|]. split; [intros url Hu; specialize (Hfile url Hu); lia|].
    apply Forall_app. split; [exact Htracks'|]. apply Forall_singleton. cbn. lia.
  - (* handleDrop *)
    crunch; auto.
    + destruct (urlsInv_register w f Hinv) as [Hdom1 Htracks1].
      assert (urlsInv (upd_nextBlob (S (nextBlob w))
                         (upd_blobStore (<[nextBlob w := f]> (blobStore w)) w))) as Hinv1.
      { split; [exact Hdom1|]. split; [intros url Hu; specialize (Hfile url Hu); cbn; lia|].
        exact Htracks1. }
      destruct (urlsInv_register _ f0 Hinv1) as [Hdom2 Htracks2]. cbn in Hdom2, Htracks2.
      split; [exact Hdom2|]. split; [intros url [= <-]; lia|].
      apply Forall_app. split; [exact Htracks2|]. apply Forall_singleton. cbn. lia.
    + destruct (urlsInv_register w f Hinv) as [Hdom' Htracks'].
      split; [exact Hdom'|]. split; [intros url [= <-]; lia|exact Htracks'].
    + destruct (urlsInv_register w f Hinv) as [Hdom' Htracks'].
      split; [exact Hdom'|]. split; [intros url Hu; specialize (Hfile url Hu); lia|].
      apply Forall_app. split; [exact Htracks'|]. apply Forall_singleton. cbn. lia.
  - (* the file is discarded *)
    crunch. split; [exact Hdom|]. split; [discriminate|exact Htracks].
Qed.

Lemma urlsInv_mounted : urlsInv mounted.
Proof.
  split; [|split; [discriminate|constructor]].
  intros url. cbn. rewrite lookup_empty. split; [lia|intros []; discriminate].
Qed.

Lemma reachable_urlsInv w : reachable w -> urlsInv w.
Proof.
  induction 1 as [|e w w' _ IH Hstep]; [apply urlsInv_mounted|].
  exact (urlsInv_step e w w' IH Hstep).
Qed.

(** X21. In a reachable world the video source and the source of every
    subtitle track are registered object URLs, and every URL that was
    ever handed out is still registered. *)
Theorem sources_are_registered (w : World) :
  reachable w ->
  (forall url, videoFile (react w) = Some url -> is_Some (blobStore w !! url)) /\
  (forall track, track ∈ subtitleTracks (react w) ->
                 is_Some (blobStore w !! st_src track)) /\
  (forall url, (url < nextBlob w)%nat -> is_Some (blobStore w !! url)).
Proof.
  intros Hreach. destruct (reachable_urlsInv w Hreach) as (Hdom & Hfile & Htracks).
  split; [intros url Hu; apply Hdom, Hfile, Hu|].
  split; [|intros url Hu; apply Hdom, Hu].
  intros track Hin. apply Hdom. rewrite Forall_forall in Htracks. apply Htracks, Hin.
Qed.

Lemma sources_are_registered_witness :
  is_Some (blobStore playerWorld !! 0%nat).
Proof.
  exact (proj1 (sources_are_registered playerWorld
                  (reachable_step (PickVideo (Some [movie])) mounted playerWorld
                     reachable_mounted eq_refl)) 0%nat eq_refl).
Defined.

(** X22. As long as subtitle buttons are clicked that the menu draws,
    the selected subtitle track stays "off" or the id of a track of the
    list: every event keeps this. *)
Theorem selection_stays_listed e w w' :
  selectionListed (react w) ->
  onDrawnButton e w ->
  step e w = Some w' ->
  selectionListed (react w').
Proof.
  intros Hsel Hdrawn Hstep. unfold selectionListed, drawnSubtitleButton in *.
  state_cases e Hstep.
  all: crunch; try exact Hsel; try exact Hdrawn; try (left; reflexivity).
  all: right; rewrite map_app, in_app_iff; right; left; reflexivity.
Qed.

Lemma selection_stays_listed_witness :
  selectionListed (react (dispatch (handleSubtitleSelect (Some [subtitles]) 1000) mounted)).
Proof.
  refine (selection_stays_listed (PickSubtitle (Some [subtitles]) 1000) mounted
            (dispatch (handleSubtitleSelect (Some [subtitles]) 1000) mounted) _ I _).
  - left. reflexivity.
  - vm_compute. reflexivity.
Defined.

(** X23. Subtitle tracks are only ever added at the end: whatever
    happens, the list before is a prefix of the list after, except when
    a video file is chosen through the picker, which empties the list.
    No event removes, reorders or changes a track. *)
Theorem subtitle_tracks_append_only e w w' :
  step e w = Some w' ->
  subtitleTracks (react w) `prefix_of` subtitleTracks (react w') \/
  (exists files, e = PickVideo files /\ subtitleTracks (react w') = []).
Proof.
  intros Hstep. state_cases e Hstep.
  all: crunch; try (left; reflexivity); try (left; eexists; reflexivity).
  right. eauto.
Qed.

Lemma subtitle_tracks_append_only_witness :
  subtitleTracks (react mounted) `prefix_of`
    subtitleTracks (react (dispatch (handleSubtitleSelect (Some [subtitles]) 1000) mounted))
  \/ (exists files, PickSubtitle (Some [subtitles]) 1000 = PickVideo files /\
         subtitleTracks
           (react (dispatch (handleSubtitleSelect (Some [subtitles]) 1000) mounted)) = []).
Proof.
  refine (subtitle_tracks_append_only (PickSubtitle (Some [subtitles]) 1000) mounted
            (dispatch (handleSubtitleSelect (Some [subtitles]) 1000) mounted) _).
  vm_compute. reflexivity.
Defined.

Lemma render_fullscreenElement w : fullscreenElement (render w) = fullscreenElement w.
Proof. unfold render. repeat case_match; reflexivity. Qed.

Lemma render_calls w : calls (render w) = calls w.
Proof. unfold render. repeat case_match; reflexivity. Qed.

(** X24. The fullscreen flag of the state is changed by nothing but
    the document's fullscreen-change notification, and then it is the
    document's state; the fullscreen button and the F key only ask the
    platform and leave the flag alone. *)
Theorem fullscreen_flag_follows_document e w w' :
  step e w = Some w' ->
  (isFullscreen (react w') = isFullscreen (react w) /\
   fullscreenElement w' = fullscreenElement w) \/
  (exists fs, e = FullscreenChange fs /\
              isFullscreen (react w') = fs /\ fullscreenElement w' = fs).
Proof.
  intros Hstep.
  step_cases e Hstep; unfold dispatch;
    rewrite ?render_react, ?render_fullscreenElement; key_cases.
  all: crunch; auto.
  all: right; eauto.
Qed.

Lemma fullscreen_flag_follows_document_witness :
  isFullscreen (react (dispatch toggleFullscreen playerWorld))
    = isFullscreen (react playerWorld).
Proof.
  destruct (fullscreen_flag_follows_document ClickFullscreen playerWorld
              (dispatch toggleFullscreen playerWorld) ltac:(vm_compute; reflexivity))
    as [[H _]|(fs & H & _)]; [exact H|discriminate H].
Defined.

(** X25. On the upload screen of a reachable world the shortcuts reach
    nothing: whatever key is pressed, the upload screen stays, no
    element is addressed, no timer is armed, the only call made is the
    one that prevents the key's default action, and of the state at
    most [showControls] changes (to true). *)
Theorem shortcuts_idle_on_upload_screen (event : KeyboardEvent) (w w' : World) :
  reachable w ->
  uploadScreen w = true ->
  step (KeyDown event) w = Some w' ->
  uploadScreen w' = true /\
  videoRef w' = None /\
  (react w' = react w \/ react w' = with_showControls true (react w)) /\
  (calls w' = calls w \/ calls w' = (calls w ++ [CallPreventDefault])%list) /\
  (forall id t, timers w' !! id = Some t -> timers w !! id = Some t).
Proof.
  intros Hreach Hupload Hstep.
  pose proof (reachable_refsInv w Hreach) as Hrefs.
  destruct (reachable_stateInv w Hreach) as (_ & _ & Hpaused).
  unfold uploadScreen in Hupload. unfold refsInv in Hrefs.
  destruct (videoFile (react w)) eqn:Hfile; [discriminate|].
  destruct Hrefs as (Hv & _ & Hc). specialize (Hpaused eq_refl).
  injection Hstep as <-.
  assert (videoFile (react (fire (handleKeyPress event) w)) = None) as Hfile'.
  { key_cases; crunch; exact Hfile. }
  unfold dispatch, uploadScreen. rewrite render_react, render_timers, render_calls.
  unfold render. rewrite Hfile'. cbn.
  split; [reflexivity|]. split; [reflexivity|].
  clear Hfile'. key_cases; run_handler; rewrite ?Hv, ?Hc, ?Hpaused; cbn;
    rewrite ?Hpaused; cbn.
  all: repeat split; auto.
  all: destruct (controlsTimeoutRef w); cbn; auto.
  all: intros id t; rewrite lookup_delete; case_decide; [discriminate|auto].
Qed.

Lemma shortcuts_idle_on_upload_screen_witness :
  let w' := dispatch (handleKeyPress (mkKeyboardEvent "Space" false)) mounted in
  uploadScreen w' = true /\
  videoRef w' = None /\
  (react w' = react mounted \/ react w' = with_showControls true (react mounted)) /\
  (calls w' = calls mounted \/ calls w' = (calls mounted ++ [CallPreventDefault])%list) /\
  (forall id t, timers w' !! id = Some t -> timers mounted !! id = Some t).
Proof.
  exact (shortcuts_idle_on_upload_screen (mkKeyboardEvent "Space" false) mounted _
           reachable_mounted eq_refl eq_refl).
Defined.

(** ** Errors and recovery *)

Lemma errorMessageOf_nonempty (code : Z) : errorMessageOf code <> EmptyString.
Proof. destruct code as [|[[|[]|]|[|[]|]|]|]; discriminate. Qed.

Lemma set_el_src_same (video : HTMLVideoElement) : set_el_src (el_src video) video = video.
Proof. destruct video; reflexivity. Qed.

(** X26. In a reachable world every error event whose element carries
    an error object, whatever its code, puts the error box on screen,
    without spinner and without play button, and both of its buttons can
    be used. *)
Theorem error_brings_up_recovery (w w' : World) (error : MediaError) :
  reachable w ->
  step (NativeError (Some error)) w = Some w' ->
  errorOverlay w' = true /\
  videoError (react w') = Some (errorMessageOf (me_code error)) /\
  bufferingIndicator (react w') = false /\
  centralPlayButton (react w') = false /\
  is_Some (step ClickTryAgain w') /\
  is_Some (step ClickChooseDifferentFile w').
Proof.
  intros Hreach Hstep. pose proof (reachable_refsInv w Hreach) as Hrefs.
  cbn [step] in Hstep. unfold guard, playerScreen, uploadScreen in Hstep.
  unfold refsInv in Hrefs.
  destruct (videoFile (react w)) as [url|] eqn:Hfile; [|discriminate].
  destruct Hrefs as ((video & Hv & _) & _). injection Hstep as <-.
  assert (react (dispatch handleError (browserSets (set_el_error (Some error)) w))
          = with_videoError (Some (errorMessageOf (me_code error)))
              (with_isPlaying false (with_isBuffering false (react w)))) as Hreact.
  { unfold dispatch. rewrite render_react. unfold handleError, browserSets.
    run_handler. rewrite Hv. reflexivity. }
  assert (errorOverlay (dispatch handleError (browserSets (set_el_error (Some error)) w))
          = true) as Hoverlay.
  { unfold errorOverlay, playerScreen, uploadScreen. rewrite Hreact. cbn. rewrite Hfile.
    cbn. destruct (String.eqb_spec (errorMessageOf (me_code error)) EmptyString) as [He|];
      [destruct (errorMessageOf_nonempty _ He)|reflexivity]. }
  split; [exact Hoverlay|].
  split; [rewrite Hreact; reflexivity|].
  assert (truthy (Some (errorMessageOf (me_code error))) = true) as Htruthy.
  { cbn. destruct (String.eqb_spec (errorMessageOf (me_code error)) EmptyString) as [He|];
      [destruct (errorMessageOf_nonempty _ He)|reflexivity]. }
  split; [unfold bufferingIndicator; rewrite Hreact; cbn [videoError with_videoError];
          rewrite Htruthy; apply andb_false_r|].
  split; [unfold centralPlayButton; rewrite Hreact;
          cbn [videoError with_videoError isPlaying isBuffering with_isPlaying
               with_isBuffering isVideoLoaded];
          rewrite Htruthy; reflexivity|].
  cbn [step]. rewrite Hoverlay. split; eexists; reflexivity.
Qed.

Lemma error_brings_up_recovery_witness :
  errorOverlay failedPlayer = true /\
  is_Some (step ClickChooseDifferentFile failedPlayer).
Proof.
  pose proof (error_brings_up_recovery playerWorld failedPlayer (mkMediaError 4)
                (reachable_step (PickVideo (Some [movie])) mounted playerWorld
                   reachable_mounted eq_refl)
                ltac:(vm_compute; reflexivity)) as H.
  exact (conj (proj1 H) (proj2 (proj2 (proj2 (proj2 (proj2 H)))))).
Defined.

(** X27. Discarding the file brings back the upload screen: the source,
    the error and the file name are cleared, the player's elements are
    gone and a file can be picked again.  The position, the duration,
    the volume, the mute flag and the subtitle tracks are left as they
    were. *)
Theorem discard_returns_to_upload (w w' : World) :
  step ClickChooseDifferentFile w = Some w' ->
  uploadScreen w' = true /\
  videoRef w' = None /\ progressRef w' = None /\ containerRef w' = None /\
  videoError (react w') = None /\
  fileName (react w') = EmptyString /\
  (forall files, is_Some (step (PickVideo files) w')) /\
  currentTime (react w') = currentTime (react w) /\
  duration (react w') = duration (react w) /\
  volume (react w') = volume (react w) /\
  isMuted (react w') = isMuted (react w) /\
  subtitleTracks (react w') = subtitleTracks (react w) /\
  blobStore w' = blobStore w.
Proof.
  intros Hstep. cbn [step] in Hstep. unfold guard in Hstep.
  destruct (errorOverlay w); [|discriminate]. injection Hstep as <-.
  repeat split; try reflexivity.
  intros files. eexists. reflexivity.
Qed.

Lemma discard_returns_to_upload_witness :
  uploadScreen (dispatch clickChooseDifferentFile failedPlayer) = true /\
  videoRef (dispatch clickChooseDifferentFile failedPlayer) = None.
Proof.
  pose proof (discard_returns_to_upload failedPlayer _ ltac:(vm_compute; reflexivity)) as H.
  exact (conj (proj1 H) (proj1 (proj2 H))).
Defined.



(** X29. In a reachable world a click on a speed button stores the
    rate, assigns it to the element and closes the settings menu; the
    element's position, volume and mute flag are not touched. *)
Theorem playback_rate_change (w w' : World) (rate : Q) :
  reachable w ->
  step (ClickRate rate) w = Some w' ->
  exists video video',
    videoRef w = Some video /\ videoRef w' = Some video' /\
    playbackRate (react w') = rate /\
    el_playbackRate video' = rate /\
    showSettingsMenu (react w') = false /\
    el_currentTime video' = el_currentTime video /\
    el_volume video' = el_volume video /\
    el_muted video' = el_muted video.
Proof.
  intros Hreach Hstep. pose proof (reachable_refsInv w Hreach) as Hrefs.
  cbn [step] in Hstep. unfold guard, playerScreen, uploadScreen in Hstep.
  unfold refsInv in Hrefs.
  destruct (videoFile (react w)) as [url|] eqn:Hfile; [|discriminate].
  destruct Hrefs as ((video & Hv & _) & _).
  destruct (showSettingsMenu (react w)); [|discriminate]. injection Hstep as <-.
  exists video. eexists.
  unfold dispatch, render, handlePlaybackRateChange. run_handler.
  do 3 (rewrite ?Hv, ?Hfile; cbn).
  repeat split; reflexivity.
Qed.

Lemma playback_rate_change_witness :
  playbackRate (react (dispatch (handlePlaybackRateChange (3 # 2)) settingsOpen)) = 3 # 2 /\
  showSettingsMenu (react (dispatch (handlePlaybackRateChange (3 # 2)) settingsOpen))
    = false.
Proof.
  assert (reachable settingsOpen) as Hreach.
  { apply (reachable_step ClickSettings playerWorld); [|vm_compute; reflexivity].
    apply (reachable_step (PickVideo (Some [movie])) mounted); [|vm_compute; reflexivity].
    apply reachable_mounted. }
  destruct (playback_rate_change settingsOpen
              (dispatch (handlePlaybackRateChange (3 # 2)) settingsOpen) (3 # 2)
              Hreach ltac:(vm_compute; reflexivity))
    as (video & video' & _ & _ & Hrate & _ & Hmenu & _).
  split; [exact Hrate|exact Hmenu].
Defined.

End ReachableProperties.
